(** * ibkr-assistant: symbol decoding, contract resolution and market-data
      acquisition of [src/api.py]

    The development embeds [parse_symbol], the body of [get_option_risk]
    and the price derivation of [get_market_snapshot] as Rocq functions and
    proves properties of them.  It goes on with the other endpoints of
    [src/api.py] ([get_ib], the account values of [get_summary],
    [get_currencies], [get_trades], [search_contract], the whole of
    [get_market_snapshot]), with [allowed_ids_list] of [src/config.py],
    [sortchildrenby] of [src/flex.py], and with [notify_admins], the option
    buttons and the expirations of /chain of [src/bot.py].

    Modelling conventions.
    - A Python [str] is a list of characters ([list ascii]); only the ASCII
      repertoire is modelled ([upper] maps a-z to A-Z and leaves every other
      character alone, whitespace is the ASCII part of [str.isspace];
      [float] and [int] skip C's white space only, which leaves out the
      separators FS, GS, RS and US).
    - A Python [float] is an IEEE-754 binary64 value, [spec_float] of the
      standard library with [prec = 53] and [emax = 1024]; arithmetic is the
      correctly rounded [SFadd] / [SFdiv].
    - The gateway client ([ib_async.IB]) is an oracle: what a qualification
      answers and what each poll of the ticker delivers is a parameter of the
      run, and every call made to it is logged in a trace of events. *)

From Stdlib Require Import List Ascii String ZArith Lia Bool.
From Stdlib Require Import SpecFloat.
From Stdlib Require Import Permutation Sorted.
Import ListNotations.

Local Open Scope Z_scope.

(* ================================================================== *)
(** ** Python strings *)
(* ================================================================== *)

Module PyStr.

Definition str := list ascii.

(** String literals of the source are written [py "..."]. *)
Definition py (s : string) : str := list_ascii_of_string s.
Arguments py s%_string.

Definition code (c : ascii) : Z := Z.of_nat (nat_of_ascii c).

Definition chr_eqb (a b : ascii) : bool := Ascii.eqb a b.

Fixpoint str_eqb (a b : str) : bool :=
  match a, b with
  | [], [] => true
  | x :: a', y :: b' => chr_eqb x y && str_eqb a' b'
  | _, _ => false
  end.

Definition len (s : str) : Z := Z.of_nat (List.length s).

(** [c.isspace()] on the ASCII range: TAB, LF, VT, FF, CR, FS, GS, RS, US
    and the space. *)
Definition isspace (c : ascii) : bool :=
  let n := code c in
  ((9 <=? n) && (n <=? 13)) || ((28 <=? n) && (n <=? 32)).

Fixpoint lstrip (s : str) : str :=
  match s with
  | c :: s' => if isspace c then lstrip s' else s
  | [] => []
  end.

Definition rstrip (s : str) : str := rev (lstrip (rev s)).

(** [s.strip()] *)
Definition strip (s : str) : str := rstrip (lstrip s).

Definition upper_chr (c : ascii) : ascii :=
  let n := code c in
  if (97 <=? n) && (n <=? 122) then ascii_of_nat (Z.to_nat (n - 32)) else c.

(** [s.upper()] *)
Definition upper (s : str) : str := map upper_chr s.

(** Python slice bounds: a negative index counts from the end, and every
    bound is clamped to [0 .. len]. *)
Definition clamp (i n : Z) : Z :=
  if i <? 0 then Z.max (i + n) 0 else Z.min i n.

(** [s[lo:hi]]; [None] is an omitted bound. *)
Definition slice (lo hi : option Z) (s : str) : str :=
  let n := len s in
  let a := match lo with Some i => clamp i n | None => 0 end in
  let b := match hi with Some j => clamp j n | None => n end in
  firstn (Z.to_nat (b - a)) (skipn (Z.to_nat a) s).

(** [s[i]]; [None] stands for [IndexError]. *)
Definition index (s : str) (i : Z) : option ascii :=
  let n := len s in
  let j := if i <? 0 then i + n else i in
  if (0 <=? j) && (j <? n) then nth_error s (Z.to_nat j) else None.

(** [s.endswith(suf)] *)
Definition endswith (s suf : str) : bool :=
  (len suf <=? len s) && str_eqb (skipn (List.length s - List.length suf) s) suf.

(** [c in s] *)
Definition contains (c : ascii) (s : str) : bool := existsb (chr_eqb c) s.

(** [s.replace(' ', '')] *)
Definition remove_spaces (s : str) : str :=
  filter (fun c => negb (chr_eqb c " "%char)) s.

(** [s.split()]: maximal runs of non-whitespace characters. [cur] is the
    run being read, in reverse. *)
Fixpoint split_from (cur : str) (s : str) : list str :=
  match s with
  | [] => match cur with [] => [] | _ => [rev cur] end
  | c :: s' =>
      if isspace c
      then match cur with
           | [] => split_from [] s'
           | _ => rev cur :: split_from [] s'
           end
      else split_from (c :: cur) s'
  end.

Definition split (s : str) : list str := split_from [] s.

End PyStr.

Import PyStr.

(* ================================================================== *)
(** ** Python floats *)
(* ================================================================== *)

Module PyFloat.

Definition float := spec_float.

Definition prec : Z := 53.
Definition emax : Z := 1024.

Definition fadd : float -> float -> float := SFadd prec emax.
Definition fdiv : float -> float -> float := SFdiv prec emax.

(** The float nearest to an integer (exact below 2^53). *)
Definition of_Z (z : Z) : float := binary_normalize prec emax z 0 false.

(** [math.isnan] *)
Definition isnan (x : float) : bool :=
  match x with S754_nan => true | _ => false end.

Definition is_finite (x : float) : bool :=
  match x with S754_zero _ | S754_finite _ _ _ => true | _ => false end.

(** Truth value of a float: false exactly for the two zeros. *)
Definition truthy (x : float) : bool :=
  match x with S754_zero _ => false | _ => true end.

(** [int(x)]: truncation toward zero; [None] stands for the
    [OverflowError] / [ValueError] raised on an infinity or a NaN. *)
Definition to_int (x : float) : option Z :=
  match x with
  | S754_zero _ => Some 0
  | S754_finite s m e =>
      let a := match e with
               | Zneg p => Z.shiftr (Zpos m) (Zpos p)
               | _ => Z.shiftl (Zpos m) e
               end in
      Some (if s then - a else a)
  | _ => None
  end.

(** *** The whitespace that [float] and [int] skip

    On an ASCII string both skip C's white space at the two ends: TAB, LF,
    VT, FF, CR and the space.  The separators FS, GS, RS and US, which
    [str.strip] removes, are not skipped. *)

Definition c_isspace (c : ascii) : bool :=
  let n := code c in ((9 <=? n) && (n <=? 13)) || (n =? 32).

Fixpoint c_lstrip (s : str) : str :=
  match s with
  | c :: s' => if c_isspace c then c_lstrip s' else s
  | [] => []
  end.

Definition c_strip (s : str) : str := rev (c_lstrip (rev (c_lstrip s))).

(** *** [float(s)] on a string

    The grammar of the language reference: optional sign, then [inf],
    [infinity] or [nan] in any case, or a decimal number with optional
    fraction and exponent, digits possibly grouped by single underscores;
    surrounding whitespace is ignored. *)

Definition is_digit (c : ascii) : bool :=
  let n := code c in (48 <=? n) && (n <=? 57).

Definition digit_val (c : ascii) : Z := code c - 48.

(** The rest of a [digitpart] once its first digit is read: value so far,
    number of digits so far, remaining input. *)
Fixpoint digits_tail (v : Z) (k : nat) (s : str) : Z * nat * str :=
  match s with
  | c :: s' =>
      if is_digit c then digits_tail (10 * v + digit_val c) (S k) s'
      else if chr_eqb c "_"%char then
        match s' with
        | d :: s'' =>
            if is_digit d then digits_tail (10 * v + digit_val d) (S k) s''
            else (v, k, s)
        | [] => (v, k, s)
        end
      else (v, k, s)
  | [] => (v, k, s)
  end.

Definition digitpart (s : str) : option (Z * nat * str) :=
  match s with
  | c :: s' => if is_digit c then Some (digits_tail (digit_val c) 1 s') else None
  | [] => None
  end.

Definition sign_of (s : str) : bool * str :=
  match s with
  | c :: s' =>
      if chr_eqb c "-"%char then (true, s')
      else if chr_eqb c "+"%char then (false, s')
      else (false, s)
  | [] => (false, s)
  end.

(** [number]: decimal mantissa and the (non-positive) power of ten that
    the fraction digits contribute. *)
Definition number (s : str) : option (Z * Z * str) :=
  match digitpart s with
  | Some (v, _, r) =>
      match r with
      | c :: r' =>
          if chr_eqb c "."%char then
            match digitpart r' with
            | Some (fv, fk, r'') =>
                Some (v * 10 ^ Z.of_nat fk + fv, - Z.of_nat fk, r'')
            | None => Some (v, 0, r')
            end
          else Some (v, 0, r)
      | [] => Some (v, 0, r)
      end
  | None =>
      match s with
      | c :: r' =>
          if chr_eqb c "."%char then
            match digitpart r' with
            | Some (fv, fk, r'') => Some (fv, - Z.of_nat fk, r'')
            | None => None
            end
          else None
      | [] => None
      end
  end.

(** [exponent]: absent, or [e]/[E], optional sign, [digitpart]. *)
Definition exponent (s : str) : option (Z * str) :=
  match s with
  | c :: r =>
      if chr_eqb (upper_chr c) "E"%char then
        let '(neg, r') := sign_of r in
        match digitpart r' with
        | Some (v, _, r'') => Some (if neg then - v else v, r'')
        | None => None
        end
      else Some (0, s)
  | [] => Some (0, s)
  end.

(** The correctly rounded binary64 value of [(-1)^neg * m * 10^e]. *)
Definition of_decimal (neg : bool) (m e : Z) : float :=
  match m with
  | Zpos p =>
      match e with
      | Zneg q => fdiv (S754_finite neg p 0) (S754_finite false (10 ^ q)%positive 0)
      | _ => binary_normalize prec emax (if neg then - (m * 10 ^ e) else m * 10 ^ e) 0 false
      end
  | _ => S754_zero neg
  end.

(** [float(s)]; [None] stands for [ValueError]. *)
Definition of_str (s : str) : option float :=
  let '(neg, r) := sign_of (c_strip s) in
  let u := upper r in
  if str_eqb u (py "INF") || str_eqb u (py "INFINITY") then Some (S754_infinity neg)
  else if str_eqb u (py "NAN") then Some S754_nan
  else
    match number r with
    | Some (m, e1, r1) =>
        match exponent r1 with
        | Some (e2, []) => Some (of_decimal neg m (e1 + e2))
        | _ => None
        end
    | None => None
    end.

End PyFloat.

Import PyFloat.

(* ================================================================== *)
(** ** Exceptions and the two effect layers *)
(* ================================================================== *)

(** The exceptions the modelled code can see.  [GatewayError] is whatever
    [Exception] a call into the gateway client raises; [CancelledError] is
    the cancellation of the request's task at an [await], which is not an
    [Exception]. *)
Inductive exn : Type :=
| HTTPException (status_code : Z) (detail : str)
| ValueError (msg : str)
| IndexError (msg : str)
| OverflowError (msg : str)
| GatewayError (msg : str)
| CancelledError.

(** [str(e)] for the exceptions that reach the generic handler. *)
Definition str_of_exn (e : exn) : str :=
  match e with
  | HTTPException _ d => d
  | ValueError m | IndexError m | OverflowError m | GatewayError m => m
  | CancelledError => []
  end.

(** Pure code that may raise. *)
Inductive result (A : Type) : Type :=
| Return (a : A)
| Raise (e : exn).
Arguments Return {A} a.
Arguments Raise {A} e.

Definition rbind {A B} (m : result A) (k : A -> result B) : result B :=
  match m with
  | Return a => k a
  | Raise e => Raise e
  end.

Declare Scope py_scope.
Delimit Scope py_scope with py_m.
Notation "x <~ m ;; k" := (rbind m (fun x => k))
  (at level 61, m at next level, right associativity) : py_scope.

(** [repr] of a string, as it appears in the message of [float]'s
    [ValueError].  The text stands between single quotes, or between double
    quotes when it holds a single quote and no double quote; the quote in
    use and the backslash are escaped by a backslash, TAB, LF and CR are
    written as a backslash and t, n or r, and every other character that
    is not printable (below the space, DEL to the no-break space, the soft
    hyphen) as a backslash, x and two lower-case hexadecimal digits. *)
Definition hex_digit (n : Z) : ascii :=
  ascii_of_nat (Z.to_nat (if n <? 10 then 48 + n else 87 + n)).

Definition printable (c : ascii) : bool :=
  let n := code c in
  negb ((n <? 32) || ((127 <=? n) && (n <=? 160)) || (n =? 173)).

Definition repr_chr (quote c : ascii) : str :=
  if chr_eqb c quote || chr_eqb c "092"%char then ["092"%char; c]
  else if chr_eqb c "009"%char then ["092"%char; "t"%char]
  else if chr_eqb c "010"%char then ["092"%char; "n"%char]
  else if chr_eqb c "013"%char then ["092"%char; "r"%char]
  else if printable c then [c]
  else ["092"%char; "x"%char; hex_digit (code c / 16); hex_digit (code c mod 16)].

Definition repr (s : str) : str :=
  let quote :=
    if contains "039"%char s && negb (contains "034"%char s)
    then "034"%char else "039"%char in
  quote :: flat_map (repr_chr quote) s ++ [quote].

Definition float_of (s : str) : result float :=
  match of_str s with
  | Some x => Return x
  | None => Raise (ValueError (py "could not convert string to float: " ++ repr s))
  end.

Definition char_at (s : str) (i : Z) : result str :=
  match index s i with
  | Some c => Return [c]
  | None => Raise (IndexError (py "string index out of range"))
  end.

Definition int_of (x : float) : result Z :=
  match to_int x with
  | Some z => Return z
  | None => Raise (OverflowError (py "cannot convert float infinity to integer"))
  end.

(* ================================================================== *)
(** ** Symbol normalisation: [MARKET_SUFFIXES] and [parse_symbol] *)
(* ================================================================== *)

(** The dict literal, in insertion order (the order [items()] yields). *)
Definition MARKET_SUFFIXES : list (str * (str * str)) :=
  [ (py ".L",  (py "LSE",  py "GBP"));
    (py ".DE", (py "IBIS", py "EUR"));
    (py ".PA", (py "SBF",  py "EUR"));
    (py ".AS", (py "AEB",  py "EUR"));
    (py ".SW", (py "EBS",  py "CHF"));
    (py ".MC", (py "BM",   py "EUR"));
    (py ".MI", (py "BVME", py "EUR")) ].

(** The [for suffix, (exchange, currency) in ...items()] loop of
    [parse_symbol]; [None] when the loop falls through. *)
Fixpoint scan_suffixes (table : list (str * (str * str))) (symbol : str)
  : option (str * str * str) :=
  match table with
  | [] => None
  | (suffix, (exchange, currency)) :: rest =>
      if endswith symbol (upper suffix)
      then Some (slice None (Some (- len suffix)) symbol, exchange, currency)
      else scan_suffixes rest symbol
  end.

(** Returns (ticker, exchange, currency). *)
Definition parse_symbol (symbol : str) : str * str * str :=
  let symbol := strip (upper symbol) in
  match scan_suffixes MARKET_SUFFIXES symbol with
  | Some r => r
  | None => (symbol, py "SMART", py "USD")
  end.

(* ================================================================== *)
(** ** Data of the gateway client *)
(* ================================================================== *)

(** [ib_async.Contract] as [Option(...)] fills it. *)
Record Contract : Type := mkOption {
  con_symbol : str;
  con_lastTradeDateOrContractMonth : str;
  con_strike : float;
  con_right : str;
  con_exchange : str;
  con_currency : str
}.

(** [ib_async.OptionComputation]: the fields the endpoint reads. *)
Record OptionComputation : Type := mkGreeks {
  impliedVol : option float;
  delta : option float;
  gamma : option float;
  vega : option float;
  theta : option float;
  undPrice : option float
}.

(** [ib_async.Ticker]: the fields the two endpoints read.  [None] is a
    field holding [None] (or, under [getattr], a missing attribute);
    times are kept in their rendered form. *)
Record Ticker : Type := mkTicker {
  modelGreeks : option OptionComputation;
  bidGreeks : option OptionComputation;
  askGreeks : option OptionComputation;
  lastGreeks : option OptionComputation;
  last : option float;
  bid : option float;
  ask : option float;
  close : option float;
  volume : option float;
  openInterest : option float;
  lastTime : option str
}.

(** The response model of [/option/risk] ([models.OptionGreeks]). *)
Record OptionGreeks : Type := mkOptionGreeks {
  og_symbol : str;
  og_delta : float;
  og_gamma : float;
  og_vega : float;
  og_theta : float;
  og_implied_vol : float;
  og_underlying_price : float;
  og_volume : Z;
  og_open_interest : Z;
  og_last_price : float;
  og_last_date : option str
}.

(** What awaiting the gateway does: raise an [Exception], be cancelled,
    or give a value. *)
Inductive answer (A : Type) : Type :=
| Raises (msg : str)
| Cancelled
| Gives (a : A).
Arguments Raises {A} msg.
Arguments Cancelled {A}.
Arguments Gives {A} a.

(** One run's gateway.  [qualifyContracts c] is the truth value the code
    sees in [qualified]: [None] for an empty list or a list whose first
    entry is [None], [Some q] for the qualified contract.  [poll i] is
    the [i]-th iteration of the polling loop: cancelled during its
    [asyncio.sleep], or what [client.ticker] then does. *)
Record Gateway : Type := mkGateway {
  qualifyContracts : Contract -> answer (option Contract);
  poll : nat -> answer (option Ticker)
}.

(** Calls made to the gateway, in order. *)
Inductive event : Type :=
| ReqMarketDataType (n : Z)
| QualifyContractsAsync (c : Contract)
| ReqMktData (c : Contract)
| Sleep
| TickerOf (c : Contract)
| CancelMktData (c : Contract).

(** Code that calls the gateway: the trace of calls and how it ended. *)
Definition M (A : Type) : Type := list event * result A.

Definition ret {A} (a : A) : M A := ([], Return a).
Definition raise {A} (e : exn) : M A := ([], Raise e).
Definition emit (ev : event) : M unit := ([ev], Return tt).
Definition lift {A} (r : result A) : M A := ([], r).

Definition bind {A B} (m : M A) (k : A -> M B) : M B :=
  match m with
  | (tr, Return a) => let '(tr', r) := k a in (tr ++ tr', r)
  | (tr, Raise e) => (tr, Raise e)
  end.

Notation "x <- m ;; k" := (bind m (fun x => k))
  (at level 61, m at next level, right associativity) : py_scope.
Notation "m ;; k" := (bind m (fun _ => k))
  (at level 61, right associativity) : py_scope.

Local Open Scope py_scope.

Definition of_answer {A} (a : answer A) : M A :=
  match a with
  | Raises msg => raise (GatewayError msg)
  | Cancelled => raise CancelledError
  | Gives x => ret x
  end.

(** [await asyncio.sleep(0.1)] in an iteration whose outcome is [a]. *)
Definition asyncio_sleep {A} (a : answer A) : M unit :=
  emit Sleep ;;
  match a with
  | Cancelled => raise CancelledError
  | _ => ret tt
  end.

(* ================================================================== *)
(** ** [get_option_risk] *)
(* ================================================================== *)

(** *** Decoding the symbol (the [if is_european_format: ... else: ...]
    block).  The record holds the local variables the block leaves. *)

Record Decoded : Type := mkDecoded {
  right : str;
  raw_ticker : str;
  expiry : str;
  strike_val : float;
  ticker : str;
  exchange : str;
  currency : str
}.

(** [len(symbol) > 2 and symbol[0] in ('P', 'C') and symbol[1] == ' '] *)
Definition is_european_format (symbol : str) : bool :=
  (2 <? len symbol) &&
  match symbol with
  | c0 :: c1 :: _ =>
      (chr_eqb c0 "P"%char || chr_eqb c0 "C"%char) && chr_eqb c1 " "%char
  | _ => false
  end.

Definition decode_european (symbol : str) : result Decoded :=
  let parts := split symbol in
  match parts with
  | right :: raw_ticker :: expiry :: p3 :: _ =>
      strike_val <~ float_of p3 ;;
      let '(ticker, exchange, currency) := parse_symbol raw_ticker in
      let currency :=
        if str_eqb currency (py "USD") && negb (contains "."%char raw_ticker)
        then py "EUR" else currency in
      Return (mkDecoded right raw_ticker expiry strike_val ticker exchange currency)
  | _ =>
      Raise (HTTPException 400 (py "Invalid option symbol format: " ++ symbol))
  end.

Definition decode_osi (symbol : str) : result Decoded :=
  let symbol_clean := remove_spaces symbol in
  x <~ float_of (slice (Some (-8)) None symbol_clean) ;;
  let strike_val := fdiv x (of_Z 1000) in
  right <~ char_at symbol_clean (-9) ;;
  let expiry_raw := slice (Some (-15)) (Some (-9)) symbol_clean in
  let expiry :=
    py "20" ++ slice (Some 0) (Some 2) expiry_raw
            ++ slice (Some 2) (Some 4) expiry_raw
            ++ slice (Some 4) (Some 6) expiry_raw in
  let raw_ticker := strip (slice None (Some (-15)) symbol_clean) in
  let '(ticker, exchange, currency) := parse_symbol raw_ticker in
  Return (mkDecoded right raw_ticker expiry strike_val ticker exchange currency).

(** [symbol] is the request's symbol after [symbol.strip()]. *)
Definition decode (symbol : str) : result Decoded :=
  if is_european_format symbol then decode_european symbol else decode_osi symbol.

(** *** Building and qualifying the contract *)

(** [Option(ticker, expiry, strike_val, 'P' if right == 'P' else 'C',
    'SMART', currency=...)] *)
Definition Option_ (d : Decoded) (currency : str) : Contract :=
  mkOption (ticker d) (expiry d) (strike_val d)
           (if str_eqb (right d) (py "P") then py "P" else py "C")
           (py "SMART") currency.

Definition qualifyContractsAsync (client : Gateway) (contract : Contract)
  : M (option Contract) :=
  emit (QualifyContractsAsync contract) ;;
  of_answer (qualifyContracts client contract).

(** The [for alt_currency in [...]] loop; [qualified] is the variable the
    loop reassigns, a [Some] return inside the loop is its [break]. *)
Fixpoint alt_currency_loop (client : Gateway) (d : Decoded)
    (alts : list str) (qualified : option Contract) : M (option Contract) :=
  match alts with
  | [] => ret qualified
  | alt_currency :: rest =>
      if str_eqb alt_currency (currency d)
      then alt_currency_loop client d rest qualified
      else
        qualified <- qualifyContractsAsync client (Option_ d alt_currency) ;;
        match qualified with
        | Some _ => ret qualified
        | None => alt_currency_loop client d rest qualified
        end
  end.

Definition alt_currencies : list str := [py "EUR"; py "GBP"; py "CHF"; py "USD"].

(** From [contract = Option(...)] to the 404 of an unqualified contract. *)
Definition resolve (client : Gateway) (symbol : str) (european : bool)
    (d : Decoded) : M Contract :=
  qualified <- qualifyContractsAsync client (Option_ d (currency d)) ;;
  qualified <-
    (match qualified with
     | None =>
         if european
         then alt_currency_loop client d alt_currencies qualified
         else ret qualified
     | Some _ => ret qualified
     end) ;;
  match qualified with
  | Some q => ret q
  | None =>
      raise (HTTPException 404 (py "Option contract not found for " ++ symbol))
  end.

(** *** Acquisition *)

(** [t.modelGreeks or t.bidGreeks or t.askGreeks or t.lastGreeks] *)
Definition first_greeks (t : Ticker) : option OptionComputation :=
  match modelGreeks t with
  | Some g => Some g
  | None =>
      match bidGreeks t with
      | Some g => Some g
      | None =>
          match askGreeks t with
          | Some g => Some g
          | None => lastGreeks t
          end
      end
  end.

(** [x is not None and not math.isnan(x)] *)
Definition not_nan (x : option float) : bool :=
  match x with
  | Some v => negb (isnan v)
  | None => false
  end.

(** The test that ends the polling loop. *)
Definition has_data (t : Ticker) : bool :=
  match first_greeks t with
  | Some _ => true
  | None => not_nan (last t)
  end.

(** [for _ in range(50)]: [n] iterations are left, [i] have been done,
    [t] is the variable the loop assigns. *)
Fixpoint poll_loop (client : Gateway) (q : Contract) (n i : nat)
    (t : option Ticker) : M (option Ticker) :=
  match n with
  | O => ret t
  | S n' =>
      asyncio_sleep (poll client i) ;;
      emit (TickerOf q) ;;
      t <- of_answer (poll client i) ;;
      match t with
      | Some tk => if has_data tk then ret t else poll_loop client q n' (S i) t
      | None => poll_loop client q n' (S i) t
      end
  end.

Definition or_zero (x : option float) : float :=
  match x with
  | Some v => v
  | None => S754_zero false
  end.

(** One greek of the response: [g.f if (g and g.f is not None) else 0.0]. *)
Definition greek (g : option OptionComputation)
    (f : OptionComputation -> option float) : float :=
  match g with
  | Some gs => or_zero (f gs)
  | None => S754_zero false
  end.

(** [int(x) if (x is not None and not math.isnan(x)) else 0] *)
Definition int_or_zero (x : option float) : result Z :=
  match x with
  | Some v => if isnan v then Return 0 else int_of v
  | None => Return 0
  end.

(** The [return OptionGreeks(...)] statement. *)
Definition build_response (symbol : str) (t : Ticker) : result OptionGreeks :=
  let g := first_greeks t in
  vol <~ int_or_zero (volume t) ;;
  oi <~ int_or_zero (openInterest t) ;;
  Return (mkOptionGreeks symbol
            (greek g delta) (greek g gamma) (greek g vega) (greek g theta)
            (greek g impliedVol) (greek g undPrice)
            vol oi
            (if not_nan (last t) then or_zero (last t) else S754_zero false)
            (lastTime t)).

(** From [client.reqMktData] to the [return]. *)
Definition acquire (client : Gateway) (symbol : str) (q : Contract)
  : M OptionGreeks :=
  emit (ReqMktData q) ;;
  t <- poll_loop client q 50 0 None ;;
  emit (CancelMktData q) ;;
  match t with
  | None => raise (HTTPException 404 (py "No market data received after waiting"))
  | Some tk => lift (build_response symbol tk)
  end.

(** The body of the [try]. *)
Definition get_option_risk_try (client : Gateway) (symbol : str) : M OptionGreeks :=
  let symbol := strip symbol in
  d <- lift (decode symbol) ;;
  q <- resolve client symbol (is_european_format symbol) d ;;
  acquire client symbol q.

(** How the endpoint ends: a body, an HTTP error, or an exception that
    leaves the function. *)
Inductive response : Type :=
| Ok (body : OptionGreeks)
| Error (status_code : Z) (detail : str)
| Uncaught (e : exn).

(** The [except Exception as e] clause. *)
Definition handler (r : result OptionGreeks) : response :=
  match r with
  | Return body => Ok body
  | Raise (HTTPException status detail) => Error status detail
  | Raise CancelledError => Uncaught CancelledError
  | Raise e => Error 500 (str_of_exn e)
  end.

(** The endpoint on a connected client: the calls it makes and its
    answer. *)
Definition get_option_risk (client : Gateway) (symbol : str)
  : list event * response :=
  let '(tr, r) := (emit (ReqMarketDataType 4) ;; get_option_risk_try client symbol) in
  (tr, handler r).

(* ================================================================== *)
(** ** [get_market_snapshot]: the price derivation *)
(* ================================================================== *)

(** [x if (x is not None and not math.isnan(x)) else None] *)
Definition nan_to_none (x : option float) : option float :=
  match x with
  | Some v => if isnan v then None else Some v
  | None => None
  end.

(** Truth value of an optional float: [None] and the zeros are false. *)
Definition truth (x : option float) : bool :=
  match x with
  | Some v => truthy v
  | None => false
  end.

(** The statements from [v_last = ...] to the end of [if price is None]. *)
Definition snapshot_price (t : Ticker) : float :=
  let v_last := nan_to_none (last t) in
  let v_bid := nan_to_none (bid t) in
  let v_ask := nan_to_none (ask t) in
  let v_close := nan_to_none (close t) in
  match v_last with
  | Some price => price
  | None =>
      if truth v_bid && truth v_ask
      then fdiv (fadd (or_zero v_bid) (or_zero v_ask)) (of_Z 2)
      else if truth v_close then or_zero v_close
      else if truth v_bid then or_zero v_bid
      else if truth v_ask then or_zero v_ask
      else S754_zero false
  end.

(* ================================================================== *)
(** ** Vocabulary of the statements, and the inputs of the examples *)
(* ================================================================== *)

(** *** Strings *)

(** [s] ends with [suf]. *)
Definition ends_with (s suf : str) : Prop := exists t, s = t ++ suf.

(** Entries whose suffix is non-empty and already upper case. *)
Definition plain_entry (e : str * (str * str)) : Prop :=
  upper (fst e) = fst e /\ fst e <> [].

Definition digits_only (s : str) : Prop := Forall (fun c => is_digit c = true) s.
Definition no_blank (s : str) : Prop := Forall (fun c => isspace c = false) s.

(** [u] is [s] in upper case: each of the letters a-z (code points 97 to
    122) is replaced by the character 32 code points below it, A-Z, and
    every other character is kept. *)
Definition uppercased (s u : str) : Prop :=
  Forall2 (fun c d => code d = if (97 <=? code c) && (code c <=? 122)
                               then code c - 32 else code c) s u.

(** A white-space character: TAB, LF, VT, FF, CR, FS, GS, RS, US or the
    space. *)
Definition blank (c : ascii) : Prop := 9 <= code c <= 13 \/ 28 <= code c <= 32.

(** [t] is [s] without its leading white space. *)
Definition left_trimmed (s t : str) : Prop :=
  exists l, s = l ++ t /\ Forall blank l /\
            (forall c t', t = c :: t' -> ~ blank c).

(** [t] is [s] without its leading and trailing white space. *)
Definition trimmed (s t : str) : Prop :=
  exists l r, s = l ++ t ++ r /\ Forall blank l /\ Forall blank r /\
              (forall c t', t = c :: t' -> ~ blank c) /\
              (forall t' c, t = t' ++ [c] -> ~ blank c).

(** The decimal value of a run of digits, continuing from [v]. *)
Definition decimal_value (v : Z) (s : str) : Z :=
  fold_left (fun a c => 10 * a + digit_val c) s v.

(** *** The OSI form *)

Definition digit_chr (d : Z) : ascii := ascii_of_nat (Z.to_nat (48 + d)).

(** [n] in decimal on [k] digits, zero padded. *)
Fixpoint zero_padded (k : nat) (n : Z) : str :=
  match k with
  | O => []
  | S k' => zero_padded k' (n / 10) ++ [digit_chr (n mod 10)]
  end.

(** The OSI form as the spec words it: the ticker, the expiry as YYMMDD,
    the right code, the strike in thousandths on eight digits. *)
Definition osi_encode (tk yymmdd : str) (r : ascii) (thousandths : Z) : str :=
  tk ++ yymmdd ++ r :: zero_padded 8 thousandths.

(** *** Calls to the gateway *)

(** A logged call is fine when, if it submits a contract for
    qualification, that contract carries the exchange "SMART". *)
Definition smart_routed (ev : event) : Prop :=
  match ev with
  | QualifyContractsAsync c => con_exchange c = py "SMART"
  | _ => True
  end.

(** The currencies left to try, in the loop's order. *)
Definition candidates (d : Decoded) (alts : list str) : list str :=
  filter (fun a => negb (str_eqb a (currency d))) alts.

(** The qualification call for the decoded contract in currency [a]. *)
Definition attempt (d : Decoded) (a : str) : event :=
  QualifyContractsAsync (Option_ d a).



Definition is_cancel (ev : event) : bool :=
  match ev with CancelMktData _ => true | _ => false end.

Definition is_subscribe (ev : event) : bool :=
  match ev with ReqMktData _ => true | _ => false end.

(** How many times a trace releases, and opens, a subscription. *)
Definition releases (tr : list event) : nat := List.length (filter is_cancel tr).
Definition subscriptions (tr : list event) : nat := List.length (filter is_subscribe tr).

(** *** Polls *)

(** What a poll delivers; an exception delivers nothing. *)
Definition delivered (a : answer (option Ticker)) : option Ticker :=
  match a with
  | Gives t => t
  | _ => None
  end.

(** A poll that neither raises nor satisfies the test of the loop. *)
Definition unready (a : answer (option Ticker)) : Prop :=
  a = Gives None \/ exists tk, a = Gives (Some tk) /\ has_data tk = false.

(** The value of [t] after [n] unready polls starting at poll [i]. *)
Fixpoint last_polled (client : Gateway) (n i : nat) (t : option Ticker)
  : option Ticker :=
  match n with
  | O => t
  | S n' => last_polled client n' (S i) (delivered (poll client i))
  end.

(** *** Responses and prices *)

Definition zero : float := S754_zero false.

Definition max_float : float := SFmax_float prec emax.

(** A response field [x] reports field [f] of the selected greeks: the
    value of the field when a set is selected and the field is present,
    zero otherwise. *)
Definition reports (g : option OptionComputation)
    (f : OptionComputation -> option float) (x : float) : Prop :=
  match g with
  | Some s => match f s with
              | Some v => x = v
              | None => x = zero
              end
  | None => x = zero
  end.

(** The precedence in words, on fields already normalised: last; else the
    midpoint when both bid and ask are there; else close; else bid; else
    ask; else 0.0. *)
Definition price_by_precedence (v_last v_bid v_ask v_close : option float) : float :=
  match v_last with
  | Some l => l
  | None =>
      match v_bid, v_ask with
      | Some b, Some a => fdiv (fadd b a) (of_Z 2)
      | _, _ =>
          match v_close with
          | Some c => c
          | None =>
              match v_bid with
              | Some b => b
              | None => match v_ask with Some a => a | None => zero end
              end
          end
      end
  end.

(** A field that is absent or holds a non-zero value. *)
Definition absent_or_nonzero (x : option float) : Prop :=
  match x with
  | Some v => truthy v = true
  | None => True
  end.

(** A field that holds a quote: a value that is not zero. *)
Definition quoted (x : option float) : Prop :=
  exists v, x = Some v /\ truthy v = true.

Definition absent_or_finite (x : option float) : Prop :=
  match x with
  | Some v => is_finite v = true
  | None => True
  end.

(** *** Inputs of the examples *)

(** The contract of "ASTS251114P00050000". *)
Definition asts_put : Contract :=
  mkOption (py "ASTS") (py "20251114") (of_Z 50) (py "P") (py "SMART") (py "USD").

(** The decoded "P HMI  20260220 1900 M", whose inferred currency is EUR. *)
Definition hmi : Decoded :=
  mkDecoded (py "P") (py "HMI") (py "20260220") (of_Z 1900)
            (py "HMI") (py "SMART") (py "EUR").

(** A ticker that exists and holds nothing. *)
Definition empty_ticker : Ticker :=
  mkTicker None None None None None None None None None None None.

(** A ticker whose model greeks hold a NaN delta. *)
Definition nan_delta : Ticker :=
  mkTicker (Some (mkGreeks None (Some S754_nan) None None None None))
           None None None None None None None None None None.

(** A ticker holding only the four price fields. *)
Definition quote (last bid ask close : option float) : Ticker :=
  mkTicker None None None None last bid ask close None None None.

(** A gateway that qualifies a contract in CHF only. *)
Definition chf_only : Gateway :=
  mkGateway
    (fun c => if str_eqb (con_currency c) (py "CHF") then Gives (Some c) else Gives None)
    (fun _ => Gives None).

(** Gateways that qualify every contract and whose polls: raise at the
    ticker lookup; deliver the empty ticker; deliver the NaN delta; are
    cancelled during the third sleep. *)
Definition poll_fails : Gateway :=
  mkGateway (fun c => Gives (Some c)) (fun _ => Raises (py "Not connected")).

Definition silent_feed : Gateway :=
  mkGateway (fun c => Gives (Some c)) (fun _ => Gives (Some empty_ticker)).

Definition nan_feed : Gateway :=
  mkGateway (fun c => Gives (Some c)) (fun _ => Gives (Some nan_delta)).

Definition poll_cancelled : Gateway :=
  mkGateway (fun c => Gives (Some c))
            (fun i => match i with
                      | 2%nat => Cancelled
                      | _ => Gives (Some empty_ticker)
                      end).

(* ================================================================== *)
(** ** More of Python: integers as text, splitting, joining, sorting *)
(* ================================================================== *)

(** The number of decimal digits of a non-negative integer. *)
Fixpoint ndigits_fuel (fuel : nat) (n : Z) : nat :=
  match fuel with
  | O => 1%nat
  | S f => if n <? 10 then 1%nat else S (ndigits_fuel f (n / 10))
  end.

Definition ndigits (n : Z) : nat := ndigits_fuel (Z.to_nat (Z.log2 n)) n.

(** [str(n)] for an integer. *)
Definition str_of_Z (n : Z) : str :=
  if n <? 0 then "-"%char :: zero_padded (ndigits (- n)) (- n)
  else zero_padded (ndigits n) n.

(** [sys.int_max_str_digits] *)
Definition int_max_str_digits : nat := 4300.

(** [int(s)]: surrounding whitespace, an optional sign, digits possibly
    grouped by single underscores, at most [int_max_str_digits] digits;
    [None] stands for [ValueError]. *)
Definition int_of_str (s : str) : option Z :=
  let '(neg, r) := sign_of (c_strip s) in
  match digitpart r with
  | Some (v, k, []) =>
      if (int_max_str_digits <? k)%nat then None
      else Some (if neg then - v else v)
  | _ => None
  end.

(** [s.split(sep)] for a one-character separator; [cur] is the piece
    being read, in reverse. *)
Fixpoint split_on_from (sep : ascii) (cur : str) (s : str) : list str :=
  match s with
  | [] => [rev cur]
  | c :: s' =>
      if chr_eqb c sep then rev cur :: split_on_from sep [] s'
      else split_on_from sep (c :: cur) s'
  end.

Definition split_on (sep : ascii) (s : str) : list str := split_on_from sep [] s.

(** [sep.join(l)] *)
Fixpoint join (sep : str) (l : list str) : str :=
  match l with
  | [] => []
  | x :: rest =>
      match rest with
      | [] => x
      | _ => x ++ sep ++ join sep rest
      end
  end.

(** [a < b] on strings: lexicographic on the code points. *)
Fixpoint str_ltb (a b : str) : bool :=
  match a, b with
  | _, [] => false
  | [], _ :: _ => true
  | x :: a', y :: b' =>
      if code x <? code y then true
      else if code y <? code x then false
      else str_ltb a' b'
  end.

(** [sorted(l)] under the comparison [lt]: Python's sort is stable and
    only uses [<], so on a strict weak order its result is the one of the
    stable insertion sort. *)
Fixpoint insert_by {A} (lt : A -> A -> bool) (x : A) (l : list A) : list A :=
  match l with
  | [] => [x]
  | y :: l' => if lt y x then y :: insert_by lt x l' else x :: l
  end.

Definition sorted_by {A} (lt : A -> A -> bool) (l : list A) : list A :=
  fold_right (insert_by lt) [] l.

(** [a] may stand before [b] under the comparison [lt]. *)
Definition in_order {A : Type} (lt : A -> A -> bool) (a b : A) : Prop :=
  lt b a = false.

(* ================================================================== *)
(** ** [get_ib]: connecting to the gateway *)
(* ================================================================== *)

(** What [get_ib] does to the outside. *)
Inductive conn_event : Type :=
| ConnectAsync
| SleepFor (seconds : Z).

Definition retries : Z := 3.

(** The [for i in range(retries)] loop: [n] iterations are left, [i] is
    the loop variable, [delay] the current delay.  [connect i] is what the
    [i]-th [connectAsync] does; the sleeps are taken to complete. *)
Fixpoint connect_loop (connect : nat -> answer unit) (n i : nat) (delay : Z)
  : list conn_event * result unit :=
  match n with
  | O => ([], Return tt)
  | S n' =>
      match connect i with
      | Gives _ => ([ConnectAsync], Return tt)
      | Cancelled => ([ConnectAsync], Raise CancelledError)
      | Raises _ =>
          if Z.of_nat i <? retries - 1
          then let '(tr, r) := connect_loop connect n' (S i) (delay * 2) in
               (ConnectAsync :: SleepFor delay :: tr, r)
          else ([ConnectAsync],
                Raise (HTTPException 503 (py "Could not connect to IBKR")))
      end
  end.

(** [isConnected] is what [ib.isConnected()] answers on entry. *)
Definition get_ib (isConnected : bool) (connect : nat -> answer unit)
  : list conn_event * result unit :=
  if isConnected then ([], Return tt)
  else connect_loop connect (Z.to_nat retries) 0 2.

Definition is_connect (ev : conn_event) : bool :=
  match ev with ConnectAsync => true | SleepFor _ => false end.

(** The seconds slept in a trace. *)
Fixpoint slept (tr : list conn_event) : list Z :=
  match tr with
  | [] => []
  | SleepFor d :: tr' => d :: slept tr'
  | ConnectAsync :: tr' => slept tr'
  end.

(* ================================================================== *)
(** ** Account values: [get_summary] and [get_currencies] *)
(* ================================================================== *)

(** [ib_async.AccountValue]: the fields the endpoints read. *)
Record AccountValue : Type := mkAccountValue {
  av_tag : str;
  av_value : str;
  av_currency : str
}.

(** The nested function [get_val] of [get_summary], on the account
    values [v].  [currency] is [None] for an omitted argument. *)
Definition get_val (v : list AccountValue) (tag : str) (currency : option str)
    (default : str) : str :=
  let matches := filter (fun x => str_eqb (av_tag x) tag) v in
  match matches with
  | [] => default
  | m0 :: _ =>
      let preferred :=
        match currency with
        | Some (c0 :: c') =>
            find (fun m => str_eqb (av_currency m) (c0 :: c')) matches
        | _ => None
        end in
      match preferred with
      | Some m => av_value m
      | None =>
          match find (fun m => str_eqb (av_currency m) (py "BASE")) matches with
          | Some m => av_value m
          | None => av_value m0
          end
      end
  end.

(** [base_curr] of [get_summary]. *)
Definition base_curr (v : list AccountValue) : str :=
  let net_liq_obj :=
    match find (fun x => str_eqb (av_tag x) (py "NetLiquidation")
                         && negb (str_eqb (av_currency x) (py "BASE"))) v with
    | Some x => Some x
    | None => find (fun x => str_eqb (av_tag x) (py "NetLiquidation")) v
    end in
  match net_liq_obj with
  | Some x => av_currency x
  | None => py "Unknown"
  end.

(** [models.CurrencyItem] *)
Record CurrencyItem : Type := mkCurrencyItem {
  ci_currency : str;
  ci_amount : float
}.

(** The entries [get_currencies] keeps. *)
Definition is_cash_balance (x : AccountValue) : bool :=
  str_eqb (av_tag x) (py "CashBalance") && negb (str_eqb (av_currency x) (py "BASE")).

(** The list comprehension of [get_currencies]. *)
Fixpoint get_currencies (v : list AccountValue) : result (list CurrencyItem) :=
  match v with
  | [] => Return []
  | x :: rest =>
      if is_cash_balance x
      then
        amount <~ float_of (av_value x) ;;
        items <~ get_currencies rest ;;
        Return (mkCurrencyItem (av_currency x) amount :: items)
      else get_currencies rest
  end.

(** [x] is the first element of [l] that satisfies [p]. *)
Definition first_with {A} (p : A -> bool) (l : list A) (x : A) : Prop :=
  exists pre post, l = pre ++ x :: post /\ p x = true /\
                   Forall (fun y => p y = false) pre.

Definition none_with {A} (p : A -> bool) (l : list A) : Prop :=
  Forall (fun y => p y = false) l.

(** The three keys [get_val] looks entries up by. *)
Definition has_tag (tag : str) (x : AccountValue) : bool := str_eqb (av_tag x) tag.

Definition has_tag_currency (tag cur : str) (x : AccountValue) : bool :=
  str_eqb (av_tag x) tag && str_eqb (av_currency x) cur.

Definition is_net_liquidation (x : AccountValue) : bool :=
  str_eqb (av_tag x) (py "NetLiquidation").

Definition is_net_liquidation_not_base (x : AccountValue) : bool :=
  str_eqb (av_tag x) (py "NetLiquidation")
  && negb (str_eqb (av_currency x) (py "BASE")).

(** A kept entry and the item made of it. *)
Definition currency_item_of (x : AccountValue) (it : CurrencyItem) : Prop :=
  ci_currency it = av_currency x /\ of_str (av_value x) = Some (ci_amount it).

(* ================================================================== *)
(** ** [get_trades] *)
(* ================================================================== *)

(** [ib_async.Fill]: the fields the endpoint reads; the time is a point
    on the time line. *)
Record Fill : Type := mkFill {
  f_execId : str;
  f_time : Z;
  f_localSymbol : str;
  f_symbol : str;
  f_side : str;
  f_shares : float;
  f_price : float;
  f_orderId : Z
}.

(** [models.TradeItem] *)
Record TradeItem : Type := mkTradeItem {
  ti_executionId : str;
  ti_symbol : str;
  ti_time : Z;
  ti_side : str;
  ti_shares : float;
  ti_price : float;
  ti_orderId : Z
}.

(** [TradeItem(...)] for a fill; [a or b] on strings. *)
Definition trade_item (f : Fill) : TradeItem :=
  mkTradeItem (f_execId f)
    (match f_localSymbol f with [] => f_symbol f | _ => f_localSymbol f end)
    (f_time f) (f_side f) (f_shares f) (f_price f) (f_orderId f).

(** [eid in seen_ids] *)
Definition seen (eid : str) (seen_ids : list str) : bool :=
  existsb (str_eqb eid) seen_ids.

(** The [for f in fills] loop. *)
Fixpoint unique_items (seen_ids : list str) (fills : list Fill) : list TradeItem :=
  match fills with
  | [] => []
  | f :: rest =>
      if seen (f_execId f) seen_ids then unique_items seen_ids rest
      else trade_item f :: unique_items (f_execId f :: seen_ids) rest
  end.

(** The key order of [items.sort(key=lambda x: x.time, reverse=True)]. *)
Definition later (a b : TradeItem) : bool := ti_time b <? ti_time a.

(** [executions] is what [reqExecutionsAsync] returns, [client_fills]
    what [client.fills()] holds. *)
Definition get_trades (executions client_fills : list Fill) : list TradeItem :=
  let fills := match executions with [] => client_fills | _ => executions end in
  sorted_by later (unique_items [] fills).

(* ================================================================== *)
(** ** [search_contract] and [get_market_snapshot] *)
(* ================================================================== *)

(** [Contract(symbol=..., secType=..., exchange=..., currency=...)];
    a field the call leaves out holds the empty string. *)
Record ContractQuery : Type := mkQuery {
  cq_symbol : str;
  cq_secType : str;
  cq_exchange : str;
  cq_currency : str
}.

(** [ib_async.ContractDetails] with the fields of its contract that the
    endpoint reads; [cd_secIdList] is [None] or a list of (tag, value). *)
Record ContractDetails : Type := mkDetails {
  cd_conId : Z;
  cd_symbol : str;
  cd_secType : str;
  cd_exchange : str;
  cd_currency : str;
  cd_localSymbol : str;
  cd_longName : str;
  cd_secIdList : option (list (str * str))
}.

(** [models.ContractDetailsItem] *)
Record ContractDetailsItem : Type := mkDetailsItem {
  cdi_conId : Z;
  cdi_symbol : str;
  cdi_secType : str;
  cdi_exchange : str;
  cdi_currency : str;
  cdi_localSymbol : str;
  cdi_longName : str;
  cdi_isin : option str
}.

(** The contract [search_contract] asks details for. *)
Definition search_query (symbol secType : str) : ContractQuery :=
  let '(ticker, exchange, currency) := parse_symbol symbol in
  if str_eqb secType (py "STK") then mkQuery ticker (py "STK") exchange currency
  else if str_eqb secType (py "OPT") then mkQuery ticker (py "OPT") (py "SMART") currency
  else mkQuery ticker secType [] [].

(** [next((id.value for id in d.secIdList if id.tag == 'ISIN'), None)
    if d.secIdList else None] *)
Definition isin_of (d : ContractDetails) : option str :=
  match cd_secIdList d with
  | Some ids =>
      match find (fun id => str_eqb (fst id) (py "ISIN")) ids with
      | Some id => Some (snd id)
      | None => None
      end
  | None => None
  end.

Definition details_item (d : ContractDetails) : ContractDetailsItem :=
  mkDetailsItem (cd_conId d) (cd_symbol d) (cd_secType d) (cd_exchange d)
                (cd_currency d) (cd_localSymbol d) (cd_longName d) (isin_of d).

(** [reqContractDetails] is what [client.reqContractDetailsAsync] does
    with a contract. *)
Definition search_contract
    (reqContractDetails : ContractQuery -> answer (list ContractDetails))
    (symbol secType : str) : result (list ContractDetailsItem) :=
  match reqContractDetails (search_query symbol secType) with
  | Cancelled => Raise CancelledError
  | Raises _ => Return (map details_item (firstn 5 []))
  | Gives details => Return (map details_item (firstn 5 details))
  end.

(** A qualified stock contract: the fields the endpoint reads. *)
Record StockContract : Type := mkStock {
  st_conId : Z;
  st_localSymbol : str
}.

(** The response model [models.MarketSnapshot]; times are kept in their
    rendered form. *)
Record MarketSnapshot : Type := mkSnapshot {
  ms_symbol : str;
  ms_price : float;
  ms_bid : option float;
  ms_ask : option float;
  ms_timestamp : str
}.

(** An exception that leaves the endpoint. *)
Inductive uncaught : Type :=
| UncaughtCancelled
| UncaughtGateway (msg : str)
| UncaughtAttributeError.

Inductive snapshot_answer : Type :=
| SnapshotOk (body : MarketSnapshot)
| SnapshotError (status_code : Z) (detail : str)
| SnapshotUncaught (e : uncaught).

(** The contract [get_market_snapshot] qualifies. *)
Definition snapshot_query (symbol : str) : ContractQuery :=
  let '(ticker, exchange, currency) := parse_symbol symbol in
  mkQuery ticker (py "STK") exchange currency.

(** The endpoint on a connected client.  [http_str] is [str] of the web
    framework's [HTTPException]; [qualify] and [reqTickers] are what the
    gateway does (an entry of the qualified list may be [None]; a ticker
    comes with its [time], possibly [None]); [now] is the clock. *)
Definition get_market_snapshot
    (http_str : Z -> str -> str)
    (qualify : ContractQuery -> answer (list (option StockContract)))
    (reqTickers : option StockContract -> answer (list (Ticker * option str)))
    (now : str) (symbol : str) : snapshot_answer :=
  match qualify (snapshot_query symbol) with
  | Raises msg => SnapshotUncaught (UncaughtGateway msg)
  | Cancelled => SnapshotUncaught UncaughtCancelled
  | Gives [] => SnapshotError 404 (py "Contract not found")
  | Gives (contract :: _) =>
      match reqTickers contract with
      | Raises msg => SnapshotError 503 (py "IBKR Error: " ++ msg)
      | Cancelled => SnapshotUncaught UncaughtCancelled
      | Gives [] =>
          SnapshotError 503
            (py "IBKR Error: "
             ++ http_str 504 (py "No market data received from IBKR"))
      | Gives ((t, time) :: _) =>
          match contract with
          | None => SnapshotUncaught UncaughtAttributeError
          | Some c =>
              SnapshotOk
                (mkSnapshot (st_localSymbol c) (snapshot_price t)
                            (nan_to_none (bid t)) (nan_to_none (ask t))
                            (match time with Some x => x | None => now end))
          end
      end
  end.

(* ================================================================== *)
(** ** [config.Settings.allowed_ids_list] *)
(* ================================================================== *)

(** The list comprehension under the [try]; [None] stands for the
    [ValueError] of a token that is not an integer. *)
Fixpoint parse_ids (tokens : list str) : option (list Z) :=
  match tokens with
  | [] => Some []
  | x :: rest =>
      match strip x with
      | [] => parse_ids rest
      | _ =>
          match int_of_str (strip x) with
          | Some n =>
              match parse_ids rest with
              | Some l => Some (n :: l)
              | None => None
              end
          | None => None
          end
      end
  end.

Definition allowed_ids_list (TELEGRAM_ALLOWED_IDS : str) : list Z :=
  match TELEGRAM_ALLOWED_IDS with
  | [] => []
  | _ =>
      match parse_ids (split_on ","%char TELEGRAM_ALLOWED_IDS) with
      | Some l => l
      | None => []
      end
  end.

(** A token that is not blank and does not read as an integer. *)
Definition bad_token (x : str) : Prop :=
  strip x <> [] /\ int_of_str (strip x) = None.

(** The text of an integer: a sign or a digit first, then digits. *)
Definition int_text (s : str) : Prop :=
  s <> [] /\ Forall (fun c => chr_eqb c "-"%char = true \/ is_digit c = true) s.

(* ================================================================== *)
(** ** [flex.sortchildrenby] *)
(* ================================================================== *)

(** An XML element, as far as the report reads it: a tag and attributes. *)
Record Element : Type := mkElement {
  el_tag : str;
  el_attrib : list (str * str)
}.

(** [child.get(attr)] *)
Definition el_get (child : Element) (attr : str) : option str :=
  match find (fun kv => str_eqb (fst kv) attr) (el_attrib child) with
  | Some kv => Some (snd kv)
  | None => None
  end.

(** [child.get(attr) or " "] *)
Definition sort_key (attr : str) (child : Element) : str :=
  match el_get child attr with
  | Some (c :: s) => c :: s
  | _ => py " "
  end.

(** [a < b] on pairs of strings. *)
Definition tuple_ltb (a b : str * str) : bool :=
  if str_eqb (fst a) (fst b) then str_ltb (snd a) (snd b)
  else str_ltb (fst a) (fst b).

(** The new content of [parent]. *)
Definition sortchildrenby (parent : list Element) (attr_1 : str)
    (attr_2 : option str) : list Element :=
  match attr_2 with
  | None =>
      sorted_by (fun a b => str_ltb (sort_key attr_1 a) (sort_key attr_1 b)) parent
  | Some attr_2 =>
      sorted_by (fun a b => tuple_ltb (sort_key attr_1 a, sort_key attr_2 a)
                                      (sort_key attr_1 b, sort_key attr_2 b))
                parent
  end.

(** Row [a] may stand before row [b]: its first key is smaller, or the
    first keys are equal and its second key (when there is one) is not
    greater. *)
Definition not_after (attr_1 : str) (attr_2 : option str) (a b : Element) : Prop :=
  str_ltb (sort_key attr_1 a) (sort_key attr_1 b) = true \/
  (sort_key attr_1 a = sort_key attr_1 b /\
   match attr_2 with
   | None => True
   | Some attr_2 => str_ltb (sort_key attr_2 b) (sort_key attr_2 a) = false
   end).

(** Rows [a] and [r] have the same keys. *)
Definition same_keys (attr_1 : str) (attr_2 : option str) (r a : Element) : bool :=
  str_eqb (sort_key attr_1 a) (sort_key attr_1 r) &&
  match attr_2 with
  | None => true
  | Some attr_2 => str_eqb (sort_key attr_2 a) (sort_key attr_2 r)
  end.

(* ================================================================== *)
(** ** [bot.cmd_options] and [bot.process_opt_details]: the symbol of a
       button *)
(* ================================================================== *)

(** [f"opt_details:{opt['symbol'].strip()}"] *)
Definition opt_callback_data (symbol : str) : str :=
  py "opt_details:" ++ strip symbol.

(** [callback.data.split(":")[1]] *)
Definition opt_details_symbol (data : str) : result str :=
  match split_on ":"%char data with
  | _ :: symbol :: _ => Return symbol
  | _ => Raise (IndexError (py "list index out of range"))
  end.

(** An IBKR local symbol of a US option: the root, padding spaces, and
    the OSI date, right and strike. *)
Definition padded_osi (root : str) (padding : nat) (yymmdd : str) (r : ascii)
    (thousandths : Z) : str :=
  osi_encode (root ++ repeat " "%char padding) yymmdd r thousandths.

(* ================================================================== *)
(** ** [bot.notify_admins] *)
(* ================================================================== *)

(** What the bot does, in order. *)
Inductive bot_event : Type :=
| SendMessage (chat_id : Z) (text : str) (parse_mode : str)
| LogError (msg : str).

(** The [for] loop; [send i chat_id] is what awaiting the [i]-th
    [bot.send_message] does. *)
Fixpoint notify_loop (send : nat -> Z -> answer unit) (text parse_mode : str)
    (i : nat) (ids : list Z) : list bot_event * result unit :=
  match ids with
  | [] => ([], Return tt)
  | chat_id :: rest =>
      match send i chat_id with
      | Gives _ =>
          let '(tr, r) := notify_loop send text parse_mode (S i) rest in
          (SendMessage chat_id text parse_mode :: tr, r)
      | Raises e =>
          let '(tr, r) := notify_loop send text parse_mode (S i) rest in
          (SendMessage chat_id text parse_mode
             :: LogError (py "Failed to notify admin " ++ str_of_Z chat_id
                            ++ py ": " ++ e)
             :: tr, r)
      | Cancelled => ([SendMessage chat_id text parse_mode], Raise CancelledError)
      end
  end.

Definition notify_admins (TELEGRAM_ALLOWED_IDS : str)
    (send : nat -> Z -> answer unit) (text parse_mode : str)
  : list bot_event * result unit :=
  notify_loop send text parse_mode 0 (allowed_ids_list TELEGRAM_ALLOWED_IDS).

(** The messages sent, in order. *)
Definition messages (tr : list bot_event) : list (Z * str * str) :=
  flat_map (fun ev => match ev with
                      | SendMessage chat_id text parse_mode =>
                          [(chat_id, text, parse_mode)]
                      | LogError _ => []
                      end) tr.

(** The number of errors logged. *)
Definition errors_logged (tr : list bot_event) : nat :=
  List.length (filter (fun ev => match ev with LogError _ => true | _ => false end) tr).

(** The positions of the sends that raise. *)
Fixpoint failed_sends (send : nat -> Z -> answer unit) (i : nat) (ids : list Z)
  : nat :=
  match ids with
  | [] => O
  | chat_id :: rest =>
      (match send i chat_id with Raises _ => 1 | _ => 0 end
       + failed_sends send (S i) rest)%nat
  end.

(* ================================================================== *)
(** ** [bot.cmd_chain]: the expirations, month by month *)
(* ================================================================== *)

(** [exp[:6]] and [exp[6:]] *)
Definition month_key (exp : str) : str := slice None (Some 6) exp.
Definition day_of (exp : str) : str := slice (Some 6) None exp.

(** A [dict] from strings to lists of strings, in insertion order. *)
Definition month_dict : Type := list (str * list str).

(** [d[k]]; [None] stands for [KeyError]. *)
Definition dict_get (d : month_dict) (k : str) : option (list str) :=
  match find (fun kv => str_eqb (fst kv) k) d with
  | Some kv => Some (snd kv)
  | None => None
  end.

(** [if k not in d: d[k] = []] followed by [d[k].append(v)] *)
Fixpoint dict_append (d : month_dict) (k v : str) : month_dict :=
  match d with
  | [] => [(k, [v])]
  | (k', vs) :: d' =>
      if str_eqb k' k then (k', vs ++ [v]) :: d'
      else (k', vs) :: dict_append d' k v
  end.

(** The loop over [expirations[:24]]. *)
Definition exp_by_month (expirations : list str) : month_dict :=
  fold_left (fun d exp => dict_append d (month_key exp) (day_of exp))
            (firstn 24 expirations) [].

(** [f"<code>{year}-{month}: {days}</code>\n"] *)
Definition month_line (month_key : str) (days : list str) : str :=
  py "<code>" ++ slice None (Some 4) month_key ++ py "-"
    ++ slice (Some 4) (Some 6) month_key ++ py ": "
    ++ join (py ", ") days ++ py "</code>" ++ ["010"%char].

(** The loop over [sorted(exp_by_month.keys())[:6]]. *)
Fixpoint month_lines (d : month_dict) (keys : list str) : option (list str) :=
  match keys with
  | [] => Some []
  | k :: keys' =>
      match dict_get d k with
      | Some days =>
          match month_lines d keys' with
          | Some rest => Some (month_line k (firstn 8 days) :: rest)
          | None => None
          end
      | None => None
      end
  end.

(** [f"<code>... +{n} more months</code>\n"] *)
Definition more_months (n : Z) : str :=
  py "<code>... +" ++ str_of_Z n ++ py " more months</code>" ++ ["010"%char].

(** The pieces appended to [out] for the expirations; [None] stands for
    [KeyError]. *)
Definition expiration_lines (expirations : list str) : option (list str) :=
  let d := exp_by_month expirations in
  match month_lines d (firstn 6 (sorted_by str_ltb (map fst d))) with
  | Some lines =>
      Some (lines ++
            if (6 <? List.length d)%nat
            then [more_months (Z.of_nat (List.length d) - 6)]
            else [])
  | None => None
  end.

(** The days of the expirations of month [k], in the order of [l]. *)
Definition days_in (k : str) (l : list str) : list str :=
  map day_of (filter (fun e => str_eqb (month_key e) k) l).

(* ================================================================== *)
(** ** The model on the examples of the source *)
(* ================================================================== *)

Example float_of_str_examples :
  of_str (py "1900") = Some (of_Z 1900) /\
  of_str (py "00050000") = Some (of_Z 50000) /\
  fdiv (of_Z 50000) (of_Z 1000) = of_Z 50 /\
  of_str (py "0.001") = Some (fdiv (of_Z 1) (of_Z 1000)) /\
  of_str (py "1_0.5e1") = Some (of_Z 105) /\
  of_str (py " -inf ") = Some (S754_infinity true) /\
  of_str (py "1e999") = Some (S754_infinity false) /\
  of_str (py "ABCDEFGH") = None /\
  of_str (py "1_") = None /\
  of_str (py "") = None.
Proof. vm_compute. repeat split. Qed.

Example float_white_space_and_repr :
  of_str ("028"%char :: py "5") = None /\
  of_str (py "5" ++ ["031"%char]) = None /\
  of_str ("009"%char :: py " 5 " ++ ["010"%char]) = Some (of_Z 5) /\
  strip ("028"%char :: py "5") = py "5" /\
  float_of (py "19,5")
  = Raise (ValueError (py "could not convert string to float: '19,5'")) /\
  repr (py "it's") = "034"%char :: py "it's" ++ ["034"%char] /\
  repr ("028"%char :: py "5") = py "'\x1c5'".
Proof. vm_compute. repeat split. Qed.

Example parse_symbol_docstring :
  parse_symbol (py "AAPL") = (py "AAPL", py "SMART", py "USD") /\
  parse_symbol (py "BATS.L") = (py "BATS", py "LSE", py "GBP") /\
  parse_symbol (py "RMS.PA") = (py "RMS", py "SBF", py "EUR") /\
  parse_symbol (py " rms.pa ") = (py "RMS", py "SBF", py "EUR").
Proof. vm_compute. repeat split. Qed.

(* ================================================================== *)
(** ** Facts about the string operations *)
(* ================================================================== *)

Lemma chr_eqb_eq (a b : ascii) : chr_eqb a b = true <-> a = b.
Proof. unfold chr_eqb. apply Ascii.eqb_eq. Qed.

Lemma chr_eqb_refl (a : ascii) : chr_eqb a a = true.
Proof. apply chr_eqb_eq. reflexivity. Qed.

Lemma str_eqb_eq (a b : str) : str_eqb a b = true <-> a = b.
Proof.
  revert b. induction a as [|x a IH]; intros [|y b]; simpl; split; intros H;
    try reflexivity; try discriminate.
  - apply andb_true_iff in H as [Hx Hab].
    apply chr_eqb_eq in Hx. apply IH in Hab. congruence.
  - injection H as -> ->. rewrite chr_eqb_refl. simpl. apply IH. reflexivity.
Qed.

Lemma str_eqb_refl (a : str) : str_eqb a a = true.
Proof. apply str_eqb_eq. reflexivity. Qed.

Lemma str_eqb_neq (a b : str) : str_eqb a b = false <-> a <> b.
Proof.
  split.
  - intros H E. apply str_eqb_eq in E. congruence.
  - intros H. destruct (str_eqb a b) eqn:E; [|reflexivity].
    apply str_eqb_eq in E. contradiction.
Qed.

Lemma len_app (a b : str) : len (a ++ b) = len a + len b.
Proof. unfold len. rewrite length_app. lia. Qed.

Lemma len_nonneg (a : str) : 0 <= len a.
Proof. unfold len. lia. Qed.

Lemma endswith_iff (s suf : str) : endswith s suf = true <-> ends_with s suf.
Proof.
  unfold endswith, ends_with, len. split.
  - intros H. apply andb_true_iff in H as [Hl He].
    apply Z.leb_le in Hl. apply str_eqb_eq in He.
    exists (firstn (List.length s - List.length suf) s).
    rewrite <- (firstn_skipn (List.length s - List.length suf) s) at 1.
    f_equal. exact He.
  - intros [t ->]. rewrite length_app. apply andb_true_iff. split.
    + apply Z.leb_le. lia.
    + replace (List.length t + List.length suf - List.length suf)%nat
        with (List.length t + 0)%nat by lia.
      rewrite skipn_app, skipn_all2 by lia.
      replace (List.length t + 0 - List.length t)%nat with 0%nat by lia.
      simpl. apply str_eqb_refl.
Qed.

Lemma endswith_false_iff (s suf : str) : endswith s suf = false <-> ~ ends_with s suf.
Proof.
  rewrite <- endswith_iff. destruct (endswith s suf); split; intros H;
    try discriminate; try reflexivity; try congruence.
Qed.

(** [(t + suf)[:-len(suf)]] is [t] when [suf] is not empty. *)
Lemma slice_strip_suffix (t suf : str) :
  suf <> [] -> slice None (Some (- len suf)) (t ++ suf) = t.
Proof.
  intros Hne. unfold slice, clamp.
  assert (0 < len suf) by (destruct suf; [congruence | unfold len; simpl; lia]).
  pose proof (len_nonneg t).
  rewrite len_app.
  replace (- len suf <? 0) with true by (symmetry; apply Z.ltb_lt; lia).
  simpl skipn. rewrite Z.max_l by lia.
  replace (Z.to_nat (- len suf + (len t + len suf) - 0)) with (List.length t)
    by (unfold len; lia).
  rewrite firstn_app, firstn_all, Nat.sub_diag. simpl. apply app_nil_r.
Qed.

Lemma upper_app (a b : str) : upper (a ++ b) = upper a ++ upper b.
Proof. apply map_app. Qed.

Lemma lstrip_app (a b : str) (c : ascii) :
  isspace c = false -> lstrip (a ++ c :: b) = lstrip a ++ c :: b.
Proof.
  intros Hc. induction a as [|x a IH]; simpl.
  - rewrite Hc. reflexivity.
  - destruct (isspace x); [apply IH | reflexivity].
Qed.

(** [rstrip] leaves alone a string whose last character is not a space. *)
Lemma rstrip_snoc (a : str) (c : ascii) :
  isspace c = false -> rstrip (a ++ [c]) = a ++ [c].
Proof.
  intros Hc. unfold rstrip. rewrite rev_app_distr. simpl. rewrite Hc.
  change (c :: rev a) with (rev [c] ++ rev a).
  rewrite <- rev_app_distr. apply rev_involutive.
Qed.

(* ================================================================== *)
(** ** Symbol normalisation *)
(* ================================================================== *)

Lemma MARKET_SUFFIXES_plain : Forall plain_entry MARKET_SUFFIXES.
Proof.
  unfold MARKET_SUFFIXES.
  repeat constructor; vm_compute; discriminate.
Qed.

(** What the scan returns on an arbitrary table: the first entry, in
    table order, whose suffix ends the symbol. *)
Lemma scan_suffixes_spec (table : list (str * (str * str))) (u : str) :
  Forall plain_entry table ->
  match scan_suffixes table u with
  | Some (t, exchange, currency) =>
      exists pre suffix post,
        table = pre ++ (suffix, (exchange, currency)) :: post /\
        Forall (fun e => ~ ends_with u (fst e)) pre /\
        u = t ++ suffix
  | None => Forall (fun e => ~ ends_with u (fst e)) table
  end.
Proof.
  induction 1 as [|[suffix [exchange currency]] table [Hup Hne] Htab IH]; simpl.
  - constructor.
  - simpl in Hup, Hne. rewrite Hup.
    destruct (endswith u suffix) eqn:He.
    + apply endswith_iff in He as [t ->].
      rewrite slice_strip_suffix by assumption.
      exists [], suffix, table. repeat split. constructor.
    + apply endswith_false_iff in He.
      destruct (scan_suffixes table u) as [[[t ex] cur]|].
      * destruct IH as (pre & suf & post & -> & Hpre & ->).
        exists ((suffix, (exchange, currency)) :: pre), suf, post.
        repeat split. constructor; assumption.
      * constructor; assumption.
Qed.

(** A suffixed symbol hits its own entry as soon as no other entry of the
    table ends it. *)
Lemma scan_suffixes_hit (table : list (str * (str * str)))
    (T suffix exchange currency : str) :
  Forall plain_entry table ->
  In (suffix, (exchange, currency)) table ->
  (forall e, In e table -> ends_with (T ++ suffix) (fst e) ->
             e = (suffix, (exchange, currency))) ->
  scan_suffixes table (T ++ suffix) = Some (T, exchange, currency).
Proof.
  intros Hplain Hin Hexcl.
  pose proof (scan_suffixes_spec table (T ++ suffix) Hplain) as Hspec.
  destruct (scan_suffixes table (T ++ suffix)) as [[[t ex] cur]|].
  - destruct Hspec as (pre & suf & post & Htab & _ & Heq).
    assert (Hhit : (suf, (ex, cur)) = (suffix, (exchange, currency))).
    { apply Hexcl.
      - rewrite Htab. apply in_or_app. right. left. reflexivity.
      - exists t. exact Heq. }
    injection Hhit as -> -> ->.
    apply app_inv_tail in Heq. subst t. reflexivity.
  - exfalso. rewrite Forall_forall in Hspec.
    apply (Hspec _ Hin). exists T. reflexivity.
Qed.

(** Two strings with different endings are different: compare them from
    the right. *)
Ltac ends_apart H :=
  apply (f_equal (@rev ascii)) in H;
  rewrite !rev_app_distr in H; vm_compute rev in H; simpl in H;
  discriminate H.

(** The suffixes of the table are mutually exclusive: a symbol made by
    appending one of them is ended by no other. *)
Lemma MARKET_SUFFIXES_exclusive (T : str) (e e' : str * (str * str)) :
  In e MARKET_SUFFIXES -> In e' MARKET_SUFFIXES ->
  ends_with (T ++ fst e) (fst e') -> e' = e.
Proof.
  unfold MARKET_SUFFIXES. simpl.
  intros He He' [p Hp].
  repeat (destruct He as [<-|He]; [|]); try contradiction;
  repeat (destruct He' as [<-|He']; [|]); try contradiction;
  try reflexivity; simpl in Hp; exfalso; ends_apart Hp.
Qed.

(** A symbol built as ticker + suffix normalises to the ticker in upper
    case without its leading blanks, followed by the suffix. *)
Lemma normal_form_suffixed (tk suffix : str) (c0 c : ascii) (r a : str) :
  upper suffix = suffix ->
  suffix = c0 :: r -> isspace c0 = false ->
  suffix = a ++ [c] -> isspace c = false ->
  strip (upper (tk ++ suffix)) = lstrip (upper tk) ++ suffix.
Proof.
  intros Hup H0 Hc0 H1 Hc.
  rewrite upper_app, Hup. unfold strip.
  rewrite H0, lstrip_app by assumption. rewrite <- H0.
  rewrite H1, app_assoc. apply rstrip_snoc. assumption.
Qed.

Lemma MARKET_SUFFIXES_normal_form (tk : str) (e : str * (str * str)) :
  In e MARKET_SUFFIXES ->
  strip (upper (tk ++ fst e)) = lstrip (upper tk) ++ fst e.
Proof.
  unfold MARKET_SUFFIXES. simpl. intros He.
  repeat (destruct He as [<-|He]; [|]); try contradiction; simpl fst;
    match goal with
    | |- strip (upper (tk ++ ?s)) = _ =>
        let l := eval vm_compute in s in
        match l with
        | ?c0 :: ?r =>
            let a := eval vm_compute in (removelast l) in
            let c := eval vm_compute in (List.last l " "%char) in
            apply (normal_form_suffixed tk s c0 c r a);
              vm_compute; reflexivity
        end
    end.
Qed.

(** Normalising ticker + suffix, for an entry of the table. *)
Lemma parse_symbol_suffixed (tk suffix exchange currency : str) :
  In (suffix, (exchange, currency)) MARKET_SUFFIXES ->
  parse_symbol (tk ++ suffix) = (lstrip (upper tk), exchange, currency).
Proof.
  intros Hin. unfold parse_symbol.
  pose proof (MARKET_SUFFIXES_normal_form tk _ Hin) as Hnf.
  simpl fst in Hnf. rewrite Hnf.
  rewrite (scan_suffixes_hit MARKET_SUFFIXES _ suffix exchange currency);
    [reflexivity | apply MARKET_SUFFIXES_plain | assumption |].
  intros e He Hends.
  apply (MARKET_SUFFIXES_exclusive (lstrip (upper tk)) _ _ Hin He Hends).
Qed.

(** The model's [upper], [lstrip] and [strip] are the upper-casing and
    trimming of the statements. *)
Lemma upper_chr_code (c : ascii) :
  code (upper_chr c)
  = if (97 <=? code c) && (code c <=? 122) then code c - 32 else code c.
Proof.
  unfold upper_chr. cbv zeta.
  destruct ((97 <=? code c) && (code c <=? 122)) eqn:E; [|reflexivity].
  apply andb_true_iff in E. destruct E as [E1 E2].
  apply Z.leb_le in E1. apply Z.leb_le in E2.
  unfold code at 1. rewrite nat_ascii_embedding by lia. lia.
Qed.

Lemma upper_uppercased (s : str) : uppercased s (upper s).
Proof.
  induction s as [|c s IH]; simpl; constructor; [apply upper_chr_code | exact IH].
Qed.

Lemma isspace_blank (c : ascii) : isspace c = true <-> blank c.
Proof.
  unfold isspace, blank. cbv zeta.
  rewrite orb_true_iff, !andb_true_iff, !Z.leb_le. tauto.
Qed.

Lemma not_blank_isspace (c : ascii) : isspace c = false -> ~ blank c.
Proof. intros H Hb. apply isspace_blank in Hb. congruence. Qed.

Lemma lstrip_left_trimmed (s : str) : left_trimmed s (lstrip s).
Proof.
  induction s as [|c s (l & Hs & Hl & Hhd)]; simpl.
  - exists []. repeat split; [constructor | discriminate].
  - destruct (isspace c) eqn:E.
    + exists (c :: l). repeat split.
      * simpl. rewrite <- Hs. reflexivity.
      * constructor; [apply isspace_blank; exact E | exact Hl].
      * exact Hhd.
    + exists []. repeat split; [constructor|].
      intros c' t' H. injection H as <- _. apply not_blank_isspace. exact E.
Qed.

Lemma strip_trimmed (s : str) : trimmed s (strip s).
Proof.
  unfold strip, rstrip.
  destruct (lstrip_left_trimmed s) as (l & Hs & Hl & Hhd).
  destruct (lstrip_left_trimmed (rev (lstrip s))) as (r & Hr & Hrb & Hlast).
  set (t := rev (lstrip (rev (lstrip s)))) in *.
  assert (Ha : lstrip s = t ++ rev r).
  { rewrite <- (rev_involutive (lstrip s)), Hr, rev_app_distr. reflexivity. }
  exists l, (rev r). repeat split.
  - rewrite <- Ha. exact Hs.
  - exact Hl.
  - apply Forall_rev. exact Hrb.
  - intros c t' Ht. apply (Hhd c (t' ++ rev r)). rewrite Ha, Ht. reflexivity.
  - intros t' c Ht. apply (Hlast c (rev t')).
    rewrite <- (rev_involutive (lstrip (rev (lstrip s)))). fold t.
    rewrite Ht, rev_app_distr. reflexivity.
Qed.

Lemma isspace_upper_chr (c : ascii) : isspace (upper_chr c) = isspace c.
Proof.
  unfold isspace. cbv zeta. rewrite upper_chr_code.
  destruct ((97 <=? code c) && (code c <=? 122)) eqn:E; [|reflexivity].
  apply andb_true_iff in E. destruct E as [E1 E2].
  apply Z.leb_le in E1. apply Z.leb_le in E2.
  replace (9 <=? code c - 32) with true by (symmetry; apply Z.leb_le; lia).
  replace (code c - 32 <=? 13) with false by (symmetry; apply Z.leb_gt; lia).
  replace (code c - 32 <=? 32) with false by (symmetry; apply Z.leb_gt; lia).
  replace (code c <=? 13) with false by (symmetry; apply Z.leb_gt; lia).
  replace (code c <=? 32) with false by (symmetry; apply Z.leb_gt; lia).
  rewrite !andb_false_r. reflexivity.
Qed.

Lemma lstrip_upper (s : str) : lstrip (upper s) = upper (lstrip s).
Proof.
  induction s as [|c s IH]; simpl; [reflexivity|].
  rewrite isspace_upper_chr. destruct (isspace c); [exact IH | reflexivity].
Qed.

(** C9. Symbol normalisation is a total function.  It puts the input in
    upper case (a-z become A-Z) and trims it; either it hits the first
    entry of the suffix table (.L, .DE, .PA, .AS, .SW, .MC, .MI, in this
    order) whose suffix ends that string, and then returns the string
    without the suffix together with the entry's venue and currency, or no
    suffix of the table ends the string and it returns the string
    unchanged with ("SMART", "USD").  For every entry of the table and
    every ticker, normalising ticker + suffix gives the ticker (in upper
    case, leading blanks removed) with exactly the entry's venue and
    currency; normalising "AAPL" gives ("AAPL", "SMART", "USD"), " bats.l "
    gives ("BATS", "LSE", "GBP") and "rms.pa" gives ("RMS", "SBF", "EUR"). *)
Theorem parse_symbol_normalises :
  let table :=
    [(py ".L", (py "LSE", py "GBP")); (py ".DE", (py "IBIS", py "EUR"));
     (py ".PA", (py "SBF", py "EUR")); (py ".AS", (py "AEB", py "EUR"));
     (py ".SW", (py "EBS", py "CHF")); (py ".MC", (py "BM", py "EUR"));
     (py ".MI", (py "BVME", py "EUR"))] in
  (forall symbol : str,
     exists v u,
       uppercased symbol v /\ trimmed v u /\
       ((exists pre suffix exchange currency post t,
           table = pre ++ (suffix, (exchange, currency)) :: post /\
           Forall (fun e => ~ ends_with u (fst e)) pre /\
           u = t ++ suffix /\
           parse_symbol symbol = (t, exchange, currency))
        \/
        (Forall (fun e => ~ ends_with u (fst e)) table /\
         parse_symbol symbol = (u, py "SMART", py "USD"))))
  /\
  Forall (fun e =>
            forall tk : str,
              exists t T,
                left_trimmed tk t /\ uppercased t T /\
                parse_symbol (tk ++ fst e) = (T, fst (snd e), snd (snd e)))
         table
  /\
  parse_symbol (py "AAPL") = (py "AAPL", py "SMART", py "USD")
  /\
  parse_symbol (py "aapl") = (py "AAPL", py "SMART", py "USD")
  /\
  parse_symbol (py " bats.l ") = (py "BATS", py "LSE", py "GBP")
  /\
  parse_symbol (py "rms.pa") = (py "RMS", py "SBF", py "EUR").
Proof.
  intros table. change table with MARKET_SUFFIXES.
  split; [|split; [|repeat split; vm_compute; reflexivity]].
  - intros symbol. exists (upper symbol), (strip (upper symbol)).
    split; [apply upper_uppercased|]. split; [apply strip_trimmed|].
    set (u := strip (upper symbol)).
    unfold parse_symbol. fold u.
    pose proof (scan_suffixes_spec MARKET_SUFFIXES u MARKET_SUFFIXES_plain) as H.
    destruct (scan_suffixes MARKET_SUFFIXES u) as [[[t ex] cur]|].
    + left. destruct H as (pre & suf & post & Htab & Hpre & Hu).
      exists pre, suf, ex, cur, post, t. repeat split; assumption.
    + right. split; [assumption | reflexivity].
  - apply Forall_forall. intros [suffix [exchange currency]] Hin tk. simpl.
    exists (lstrip tk), (upper (lstrip tk)).
    split; [apply lstrip_left_trimmed|]. split; [apply upper_uppercased|].
    rewrite <- lstrip_upper. apply parse_symbol_suffixed. assumption.
Qed.

(* ================================================================== *)
(** ** Decoding the European format *)
(* ================================================================== *)

Lemma contains_In (c : ascii) (s : str) : contains c s = true <-> In c s.
Proof.
  unfold contains. rewrite existsb_exists. split.
  - intros [x [Hin Hx]]. apply chr_eqb_eq in Hx. subst. assumption.
  - intros Hin. exists c. split; [assumption | apply chr_eqb_refl].
Qed.





(* ================================================================== *)
(** ** Decoding the OSI format *)
(* ================================================================== *)

Lemma slice_last (a b : str) (n : Z) :
  len b = n -> 0 < n -> slice (Some (- n)) None (a ++ b) = b.
Proof.
  intros Hb Hn. unfold slice, clamp. rewrite len_app.
  pose proof (len_nonneg a).
  replace (- n <? 0) with true by (symmetry; apply Z.ltb_lt; lia).
  rewrite Z.max_l by lia.
  replace (Z.to_nat (- n + (len a + len b))) with (List.length a + 0)%nat
    by (unfold len in *; lia).
  rewrite skipn_app, skipn_all2 by lia.
  replace (List.length a + 0 - List.length a)%nat with 0%nat by lia.
  simpl. apply firstn_all2. unfold len in *. lia.
Qed.

Lemma slice_front (a b : str) (n : Z) :
  len b = n -> 0 < n -> slice None (Some (- n)) (a ++ b) = a.
Proof.
  intros Hb Hn. subst n. apply slice_strip_suffix.
  intros ->. unfold len in Hn. simpl in Hn. lia.
Qed.

Lemma slice_window (a b c : str) (n m : Z) :
  len b + len c = n -> len c = m -> 0 < m ->
  slice (Some (- n)) (Some (- m)) (a ++ b ++ c) = b.
Proof.
  intros Hn Hm Hpos. unfold slice, clamp. rewrite !len_app.
  pose proof (len_nonneg a). pose proof (len_nonneg b).
  replace (- n <? 0) with true by (symmetry; apply Z.ltb_lt; lia).
  replace (- m <? 0) with true by (symmetry; apply Z.ltb_lt; lia).
  rewrite !Z.max_l by lia.
  replace (Z.to_nat (- n + (len a + (len b + len c)))) with (List.length a + 0)%nat
    by (unfold len in *; lia).
  replace (Z.to_nat (- m + (len a + (len b + len c)) - (- n + (len a + (len b + len c)))))
    with (List.length b) by (unfold len in *; lia).
  rewrite skipn_app, skipn_all2 by lia.
  replace (List.length a + 0 - List.length a)%nat with 0%nat by lia.
  simpl. rewrite firstn_app, firstn_all, Nat.sub_diag. simpl. apply app_nil_r.
Qed.

Lemma index_from_end (a c : str) (r : ascii) (n : Z) :
  len c + 1 = n -> index (a ++ r :: c) (- n) = Some r.
Proof.
  intros Hn. unfold index. rewrite len_app.
  pose proof (len_nonneg a). pose proof (len_nonneg c).
  assert (Hrc : len (r :: c) = len c + 1) by (unfold len; simpl; lia).
  rewrite Hrc.
  replace (- n <? 0) with true by (symmetry; apply Z.ltb_lt; lia).
  replace (- n + (len a + (len c + 1))) with (len a) by lia.
  replace ((0 <=? len a) && (len a <? len a + (len c + 1))) with true
    by (symmetry; apply andb_true_iff; split; [apply Z.leb_le | apply Z.ltb_lt]; lia).
  unfold len. rewrite Nat2Z.id. rewrite nth_error_app2 by lia.
  rewrite Nat.sub_diag. reflexivity.
Qed.

(** The three two-character slices of the expiry put a six-character
    date back together. *)
Lemma expiry_pieces (date : str) :
  len date = 6 ->
  slice (Some 0) (Some 2) date ++ slice (Some 2) (Some 4) date
    ++ slice (Some 4) (Some 6) date = date.
Proof.
  intros H. unfold len in H.
  do 7 (destruct date as [|? date]; try (simpl in H; lia)).
  reflexivity.
Qed.

(** What the OSI branch extracts from a space-stripped string of the shape
    ticker, six characters, one character, eight characters. *)
Lemma decode_osi_extracts (symbol tk date digs : str) (r : ascii) (x : float) :
  remove_spaces symbol = tk ++ date ++ r :: digs ->
  len date = 6 -> len digs = 8 ->
  of_str digs = Some x ->
  decode_osi symbol
  = Return (mkDecoded [r] (strip tk) (py "20" ++ date) (fdiv x (of_Z 1000))
              (fst (fst (parse_symbol (strip tk))))
              (snd (fst (parse_symbol (strip tk))))
              (snd (parse_symbol (strip tk)))).
Proof.
  intros Hclean Hdate Hdigs Hx. unfold decode_osi. rewrite Hclean.
  assert (Hstrike : slice (Some (-8)) None (tk ++ date ++ r :: digs) = digs).
  { replace (tk ++ date ++ r :: digs) with ((tk ++ date ++ [r]) ++ digs)
      by (rewrite <- !app_assoc; reflexivity).
    apply (slice_last _ digs 8); [assumption | lia]. }
  assert (Hright : index (tk ++ date ++ r :: digs) (-9) = Some r).
  { rewrite app_assoc. apply (index_from_end _ digs r 9). lia. }
  assert (Hexpiry : slice (Some (-15)) (Some (-9)) (tk ++ date ++ r :: digs) = date).
  { apply (slice_window tk date (r :: digs) 15 9);
      unfold len in *; simpl; lia. }
  assert (Hticker : slice None (Some (-15)) (tk ++ date ++ r :: digs) = tk).
  { apply (slice_front tk (date ++ r :: digs) 15);
      [rewrite len_app; unfold len in *; simpl; lia | lia]. }
  rewrite Hstrike, Hexpiry, Hticker.
  unfold float_of, char_at. rewrite Hx, Hright. simpl rbind.
  rewrite expiry_pieces by assumption.
  destruct (parse_symbol (strip tk)) as [[t e] c]. reflexivity.
Qed.

(** *** Encoding, and the way back *)

Lemma is_digit_code (c : ascii) : is_digit c = true <-> 48 <= code c <= 57.
Proof.
  unfold is_digit. rewrite andb_true_iff, !Z.leb_le. tauto.
Qed.

Lemma chr_eqb_code (a b : ascii) : code a <> code b -> chr_eqb a b = false.
Proof.
  intros H. destruct (chr_eqb a b) eqn:E; [|reflexivity].
  apply chr_eqb_eq in E. subst. contradiction.
Qed.

Lemma digit_not_space (c : ascii) : is_digit c = true -> isspace c = false.
Proof.
  intros H. apply is_digit_code in H. unfold isspace.
  apply orb_false_iff. split; apply andb_false_iff.
  - right. apply Z.leb_gt. lia.
  - right. apply Z.leb_gt. lia.
Qed.

Lemma digit_upper (c : ascii) : is_digit c = true -> upper_chr c = c.
Proof.
  intros H. apply is_digit_code in H. unfold upper_chr.
  replace (97 <=? code c) with false by (symmetry; apply Z.leb_gt; lia).
  reflexivity.
Qed.

Lemma digit_chr_code (d : Z) : 0 <= d <= 9 -> code (digit_chr d) = 48 + d.
Proof.
  intros H. unfold code, digit_chr.
  rewrite nat_ascii_embedding by lia. lia.
Qed.

Lemma digit_chr_is_digit (d : Z) : 0 <= d <= 9 -> is_digit (digit_chr d) = true.
Proof.
  intros H. apply is_digit_code. rewrite digit_chr_code by assumption. lia.
Qed.

Lemma digit_chr_val (d : Z) : 0 <= d <= 9 -> digit_val (digit_chr d) = d.
Proof.
  intros H. unfold digit_val. rewrite digit_chr_code by assumption. lia.
Qed.

Lemma zero_padded_length (k : nat) (n : Z) : List.length (zero_padded k n) = k.
Proof.
  revert n. induction k as [|k IH]; intros n; simpl; [reflexivity|].
  rewrite length_app, IH. simpl. lia.
Qed.

Lemma zero_padded_digits (k : nat) (n : Z) : digits_only (zero_padded k n).
Proof.
  revert n. induction k as [|k IH]; intros n; simpl.
  - constructor.
  - apply Forall_app. split; [apply IH|].
    constructor; [|constructor].
    apply digit_chr_is_digit. pose proof (Z.mod_pos_bound n 10). lia.
Qed.

Lemma zero_padded_value (k : nat) (n : Z) :
  0 <= n < 10 ^ Z.of_nat k -> decimal_value 0 (zero_padded k n) = n.
Proof.
  revert n. induction k as [|k IH]; intros n Hn.
  - simpl in *. unfold decimal_value. simpl. lia.
  - simpl zero_padded. unfold decimal_value in *.
    rewrite fold_left_app. cbn [fold_left].
    rewrite Nat2Z.inj_succ, Z.pow_succ_r in Hn by lia.
    rewrite IH by (split; [apply Z.div_pos; lia | apply Z.div_lt_upper_bound; lia]).
    rewrite digit_chr_val by (pose proof (Z.mod_pos_bound n 10); lia).
    pose proof (Z.div_mod n 10 ltac:(lia)). lia.
Qed.

Lemma digits_tail_digits (s : str) (v : Z) (k : nat) :
  digits_only s ->
  digits_tail v k s = (decimal_value v s, (k + List.length s)%nat, []).
Proof.
  intros H. revert v k. induction H as [|c r Hc Hs IH]; intros v k; simpl.
  - rewrite Nat.add_0_r. reflexivity.
  - rewrite Hc, IH. unfold decimal_value. simpl.
    rewrite Nat.add_succ_r. reflexivity.
Qed.

Lemma lstrip_no_blank (s : str) : no_blank s -> lstrip s = s.
Proof. intros [|c r Hc _]; simpl; [reflexivity | rewrite Hc; reflexivity]. Qed.

Lemma strip_no_blank (s : str) : no_blank s -> strip s = s.
Proof.
  intros H. unfold strip, rstrip. rewrite (lstrip_no_blank s) by assumption.
  rewrite lstrip_no_blank; [apply rev_involutive|].
  apply Forall_rev. assumption.
Qed.

(** C's white space is white space of [str.strip]. *)
Lemma c_isspace_isspace (c : ascii) : isspace c = false -> c_isspace c = false.
Proof.
  unfold isspace, c_isspace. cbv zeta. intros H.
  apply orb_false_iff in H. destruct H as [H1 H2].
  apply orb_false_iff. split; [exact H1|].
  apply Z.eqb_neq. intros E. rewrite E in H2. discriminate H2.
Qed.

Lemma c_lstrip_no_blank (s : str) : no_blank s -> c_lstrip s = s.
Proof.
  intros [|c r Hc _]; simpl; [reflexivity|].
  rewrite (c_isspace_isspace c Hc). reflexivity.
Qed.

Lemma c_strip_no_blank (s : str) : no_blank s -> c_strip s = s.
Proof.
  intros H. unfold c_strip. rewrite (c_lstrip_no_blank s) by assumption.
  rewrite c_lstrip_no_blank; [apply rev_involutive|].
  apply Forall_rev. assumption.
Qed.

Lemma digits_no_blank (s : str) : digits_only s -> no_blank s.
Proof.
  intros H. eapply Forall_impl; [|exact H]. intros c. apply digit_not_space.
Qed.

Lemma upper_digits (s : str) : digits_only s -> upper s = s.
Proof.
  induction 1 as [|c r Hc _ IH]; simpl; [reflexivity|].
  rewrite digit_upper, IH by assumption. reflexivity.
Qed.

Lemma decimal_value_nonneg (s : str) (v : Z) :
  digits_only s -> 0 <= v -> 0 <= decimal_value v s.
Proof.
  intros H. revert v. induction H as [|d r Hd _ IH]; intros v Hv.
  - exact Hv.
  - unfold decimal_value. cbn [fold_left]. apply IH.
    apply is_digit_code in Hd. unfold digit_val. lia.
Qed.

(** [float] of a non-empty run of digits is the float of its value. *)
Lemma of_str_digits (s : str) :
  s <> [] -> digits_only s -> of_str s = Some (of_Z (decimal_value 0 s)).
Proof.
  intros Hne Hd. unfold of_str.
  rewrite c_strip_no_blank by (apply digits_no_blank; assumption).
  destruct Hd as [|c r Hc Hs]; [congruence|].
  pose proof (proj1 (is_digit_code c) Hc) as Hcode.
  unfold sign_of.
  rewrite (chr_eqb_code c "-"%char), (chr_eqb_code c "+"%char)
    by (vm_compute (code "-"%char); vm_compute (code "+"%char); lia).
  rewrite upper_digits by (constructor; assumption).
  change (py "INF") with ("I"%char :: py "NF").
  change (py "INFINITY") with ("I"%char :: py "NFINITY").
  change (py "NAN") with ("N"%char :: py "AN").
  simpl str_eqb.
  rewrite (chr_eqb_code c "I"%char), (chr_eqb_code c "N"%char)
    by (vm_compute (code "I"%char); vm_compute (code "N"%char); lia).
  simpl. unfold number, digitpart. rewrite Hc.
  rewrite digits_tail_digits by assumption.
  unfold exponent.
  rewrite Z.add_0_l.
  assert (Hpos : 0 <= decimal_value (digit_val c) r).
  { apply decimal_value_nonneg; [assumption | unfold digit_val; lia]. }
  unfold of_decimal, of_Z.
  destruct (decimal_value (digit_val c) r) as [|p|p] eqn:E.
  - reflexivity.
  - rewrite Z.pow_0_r, Z.mul_1_r. reflexivity.
  - lia.
Qed.

Lemma remove_spaces_no_blank (s : str) : no_blank s -> remove_spaces s = s.
Proof.
  induction 1 as [|c r Hc _ IH]; simpl; [reflexivity|].
  destruct (chr_eqb c " "%char) eqn:E.
  - apply chr_eqb_eq in E. subst c. discriminate Hc.
  - simpl. rewrite IH. reflexivity.
Qed.

Lemma no_blank_not_european (s : str) : no_blank s -> is_european_format s = false.
Proof.
  intros H. unfold is_european_format.
  destruct s as [|c0 [|c1 s]]; try (apply andb_false_r).
  apply Forall_inv_tail in H. apply Forall_inv in H.
  destruct (chr_eqb c1 " "%char) eqn:E.
  - apply chr_eqb_eq in E. subst c1. discriminate H.
  - rewrite !andb_false_r. reflexivity.
Qed.

(** Encoding without padding and decoding returns the tuple: the ticker
    as given (and its normalisation), the right code, the expiry with the
    century, and the float nearest to thousandths / 1000. *)
Lemma decode_osi_encode (tk yymmdd : str) (r : ascii) (n : Z) :
  no_blank tk -> digits_only yymmdd -> len yymmdd = 6 ->
  r = "P"%char \/ r = "C"%char ->
  0 <= n < 10 ^ 8 ->
  decode (osi_encode tk yymmdd r n)
  = Return (mkDecoded [r] tk (py "20" ++ yymmdd) (fdiv (of_Z n) (of_Z 1000))
              (fst (fst (parse_symbol tk)))
              (snd (fst (parse_symbol tk)))
              (snd (parse_symbol tk))).
Proof.
  intros Htk Hdate Hlen Hr Hn.
  assert (Hnb : no_blank (osi_encode tk yymmdd r n)).
  { unfold osi_encode. apply Forall_app. split; [assumption|].
    apply Forall_app. split; [apply digits_no_blank; assumption|].
    constructor.
    - destruct Hr as [-> | ->]; reflexivity.
    - apply digits_no_blank, zero_padded_digits. }
  unfold decode. rewrite no_blank_not_european by assumption.
  rewrite (decode_osi_extracts _ tk yymmdd (zero_padded 8 n) r (of_Z n)).
  - rewrite strip_no_blank by assumption. reflexivity.
  - rewrite remove_spaces_no_blank by assumption. reflexivity.
  - assumption.
  - unfold len. rewrite zero_padded_length. reflexivity.
  - rewrite of_str_digits.
    + rewrite zero_padded_value by (simpl; lia). reflexivity.
    + intros E. apply (f_equal (@List.length ascii)) in E.
      rewrite zero_padded_length in E. discriminate E.
    + apply zero_padded_digits.
Qed.

(** C6. The OSI extraction (strike = last 8 characters / 1000, right = 9th
    character from the end, expiry = "20" + characters [-15,-9), ticker =
    the rest) is what [decode_osi_extracts] and [decode_osi_encode] show
    for the OSI branch, and "ASTS251114P00050000" decodes to ASTS, P,
    20251114, 50.0.  But a well-formed OSI string whose one-letter root
    "C" (or "P") is padded with spaces, "C     251114P00050000", is taken
    by the format probe for the European format and is rejected with the
    400 of that branch before any call to the gateway, although the same
    contract written without padding decodes. *)
Theorem osi_padded_one_letter_root_rejected :
  let s := py "C     251114P00050000" in
  strip s = s /\
  is_european_format s = true /\
  remove_spaces s = osi_encode (py "C") (py "251114") "P"%char 50000 /\
  (forall client : Gateway,
     get_option_risk client s
     = ([ReqMarketDataType 4],
        Error 400 (py "Invalid option symbol format: C     251114P00050000"))) /\
  decode (py "C251114P00050000")
  = Return (mkDecoded (py "P") (py "C") (py "20251114") (of_Z 50)
                      (py "C") (py "SMART") (py "USD")) /\
  decode (py "ASTS251114P00050000")
  = Return (mkDecoded (py "P") (py "ASTS") (py "20251114") (of_Z 50)
                      (py "ASTS") (py "SMART") (py "USD")).
Proof.
  repeat split; try intros client; vm_compute; reflexivity.
Qed.

(** C7. Malformed OSI input is not answered with a decode error.  An
    eight-character input fails on the right-code index and leaves through
    the generic handler as a 500 whose detail is "string index out of
    range"; a non-numeric strike leaves as a 500 carrying the text of the
    [ValueError]; a nine-character input and an input with a non-numeric
    expiry decode without any error.  The European branch, in contrast,
    answers too few tokens with a 400 that echoes the input. *)
Theorem osi_malformed_input_not_a_decode_error :
  (forall client : Gateway,
     get_option_risk client (py "12345678")
     = ([ReqMarketDataType 4], Error 500 (py "string index out of range"))) /\
  (forall client : Gateway,
     get_option_risk client (py "AAPL251114PABCDEFGH")
     = ([ReqMarketDataType 4],
        Error 500 (py "could not convert string to float: 'ABCDEFGH'"))) /\
  decode (py "P00050000")
  = Return (mkDecoded (py "P") [] (py "20") (of_Z 50) [] (py "SMART") (py "USD")) /\
  decode (py "AAPL25111XP00050000")
  = Return (mkDecoded (py "P") (py "AAPL") (py "2025111X") (of_Z 50)
                      (py "AAPL") (py "SMART") (py "USD")) /\
  (forall client : Gateway,
     get_option_risk client (py "P HMI")
     = ([ReqMarketDataType 4],
        Error 400 (py "Invalid option symbol format: P HMI"))).
Proof.
  repeat split; try intros client; vm_compute; reflexivity.
Qed.

(* ================================================================== *)
(** ** Traces of gateway calls *)
(* ================================================================== *)

Lemma bind_fst {A B} (m : M A) (k : A -> M B) :
  fst (bind m k)
  = fst m ++ match snd m with
             | Return a => fst (k a)
             | Raise _ => []
             end.
Proof.
  destruct m as [tr [a|e]]; simpl.
  - destruct (k a). reflexivity.
  - rewrite app_nil_r. reflexivity.
Qed.

Lemma bind_snd {A B} (m : M A) (k : A -> M B) :
  snd (bind m k)
  = match snd m with
    | Return a => snd (k a)
    | Raise e => Raise e
    end.
Proof.
  destruct m as [tr [a|e]]; simpl; [destruct (k a)|]; reflexivity.
Qed.

(** A property of every logged call passes through [bind]. *)
Lemma Forall_bind {A B} (P : event -> Prop) (m : M A) (k : A -> M B) :
  Forall P (fst m) -> (forall a, Forall P (fst (k a))) ->
  Forall P (fst (bind m k)).
Proof.
  intros Hm Hk. rewrite bind_fst. apply Forall_app. split; [assumption|].
  destruct (snd m); [apply Hk | constructor].
Qed.

Lemma Forall_of_answer {A} (P : event -> Prop) (a : answer A) :
  Forall P (fst (of_answer a)).
Proof. destruct a; constructor. Qed.

Lemma Forall_asyncio_sleep {A} (P : event -> Prop) (a : answer A) :
  P Sleep -> Forall P (fst (asyncio_sleep a)).
Proof.
  intros H. unfold asyncio_sleep. apply Forall_bind.
  - constructor; [exact H | constructor].
  - intros _. destruct a; constructor.
Qed.

Create HintDb trace.
#[local] Hint Resolve Forall_nil Forall_of_answer : trace.
#[local] Hint Extern 2 (Forall _ (fst (bind _ _))) =>
  apply Forall_bind; [|intros ?] : trace.
#[local] Hint Extern 1 (Forall _ (fst (emit _))) =>
  apply Forall_cons; [simpl; trivial | apply Forall_nil] : trace.
#[local] Hint Extern 1 (Forall _ (fst (ret _))) => apply Forall_nil : trace.
#[local] Hint Extern 1 (Forall _ (fst (raise _))) => apply Forall_nil : trace.
#[local] Hint Extern 1 (Forall _ (fst (lift _))) => apply Forall_nil : trace.

(* ================================================================== *)
(** ** Option contracts are routed through SMART *)
(* ================================================================== *)

Lemma qualify_smart (client : Gateway) (d : Decoded) (cur : str) :
  Forall smart_routed (fst (qualifyContractsAsync client (Option_ d cur))).
Proof. unfold qualifyContractsAsync. auto with trace. Qed.

Lemma alt_currency_loop_smart (client : Gateway) (d : Decoded)
    (alts : list str) (q : option Contract) :
  Forall smart_routed (fst (alt_currency_loop client d alts q)).
Proof.
  revert q. induction alts as [|a alts IH]; intros q; simpl.
  - constructor.
  - destruct (str_eqb a (currency d)); [apply IH|].
    apply Forall_bind; [apply qualify_smart|].
    intros [q'|]; [constructor | apply IH].
Qed.

Lemma resolve_smart (client : Gateway) (symbol : str) (eu : bool) (d : Decoded) :
  Forall smart_routed (fst (resolve client symbol eu d)).
Proof.
  unfold resolve.
  apply Forall_bind; [apply qualify_smart|]. intros q.
  apply Forall_bind.
  - destruct q; [constructor|].
    destruct eu; [apply alt_currency_loop_smart | constructor].
  - intros [q'|]; constructor.
Qed.

Lemma poll_loop_S (client : Gateway) (q : Contract) (n i : nat)
    (t : option Ticker) :
  poll_loop client q (S n) i t
  = (asyncio_sleep (poll client i) ;;
     emit (TickerOf q) ;;
     t <- of_answer (poll client i) ;;
     match t with
     | Some tk => if has_data tk then ret t else poll_loop client q n (S i) t
     | None => poll_loop client q n (S i) t
     end).
Proof. reflexivity. Qed.

Lemma poll_loop_smart (client : Gateway) (q : Contract) (n i : nat)
    (t : option Ticker) :
  Forall smart_routed (fst (poll_loop client q n i t)).
Proof.
  revert i t. induction n as [|n IH]; intros i t.
  - constructor.
  - rewrite poll_loop_S.
    apply Forall_bind; [apply Forall_asyncio_sleep; exact I|]. intros _.
    apply Forall_bind; [auto with trace|]. intros _.
    apply Forall_bind; [auto with trace|].
    intros [tk|]; [destruct (has_data tk); [constructor|]|]; apply IH.
Qed.

Lemma acquire_smart (client : Gateway) (symbol : str) (q : Contract) :
  Forall smart_routed (fst (acquire client symbol q)).
Proof.
  unfold acquire.
  apply Forall_bind; [auto with trace|]. intros _.
  apply Forall_bind; [apply poll_loop_smart|]. intros t.
  apply Forall_bind; [auto with trace|]. intros _.
  destruct t; constructor.
Qed.

(** C10. Every contract the endpoint submits for qualification, on the
    first attempt and on every currency retry, in the European and in the
    OSI format, carries the exchange "SMART"; the contract takes the
    decoded ticker and the currency it is built with, and ignores the venue
    of symbol normalisation: "BATS.L251114P00050000" normalises to venue
    LSE and currency GBP, and its contract is routed to SMART in GBP. *)
Theorem option_contract_always_smart :
  (forall (client : Gateway) (symbol : str),
     Forall smart_routed (fst (get_option_risk client symbol)))
  /\
  (forall (d : Decoded) (cur : str),
     con_exchange (Option_ d cur) = py "SMART" /\
     con_currency (Option_ d cur) = cur /\
     con_symbol (Option_ d cur) = ticker d)
  /\
  (exists d,
     decode (py "BATS.L251114P00050000") = Return d /\
     exchange d = py "LSE" /\
     Option_ d (currency d)
     = mkOption (py "BATS") (py "20251114") (of_Z 50) (py "P")
                (py "SMART") (py "GBP")).
Proof.
  split; [|split].
  - intros client symbol. unfold get_option_risk.
    assert (H : Forall smart_routed
                  (fst (emit (ReqMarketDataType 4) ;;
                        get_option_risk_try client symbol))).
    { apply Forall_bind; [auto with trace|]. intros _.
      unfold get_option_risk_try.
      apply Forall_bind; [auto with trace|]. intros d.
      apply Forall_bind; [apply resolve_smart|]. intros q.
      apply acquire_smart. }
    destruct (emit (ReqMarketDataType 4) ;; get_option_risk_try client symbol).
    exact H.
  - intros d cur. repeat split.
  - eexists. split; [vm_compute; reflexivity|].
    split; vm_compute; reflexivity.
Qed.

(* ================================================================== *)
(** ** Currency retry *)
(* ================================================================== *)

Section CurrencyRetry.

Variable client : Gateway.
Variable d : Decoded.



End CurrencyRetry.

Example currency_fallback_run :
  decode (py "P HMI  20260220 1900 M") = Return hmi /\
  candidates hmi alt_currencies = [py "GBP"; py "CHF"; py "USD"] /\
  resolve chf_only (py "P HMI  20260220 1900 M") true hmi
  = ([attempt hmi (py "EUR"); attempt hmi (py "GBP"); attempt hmi (py "CHF")],
     Return (Option_ hmi (py "CHF"))).
Proof. repeat split; vm_compute; reflexivity. Qed.


(* ================================================================== *)
(** ** Acquisition: polling and release of the subscription *)
(* ================================================================== *)

Section Acquisition.

Variable client : Gateway.
Variable q : Contract.

Lemma releases_app (a b : list event) : releases (a ++ b) = (releases a + releases b)%nat.
Proof. unfold releases. rewrite filter_app, length_app. reflexivity. Qed.

Lemma subscriptions_app (a b : list event) :
  subscriptions (a ++ b) = (subscriptions a + subscriptions b)%nat.
Proof. unfold subscriptions. rewrite filter_app, length_app. reflexivity. Qed.

(** The polling loop neither opens nor releases a subscription. *)
Lemma poll_loop_quiet (n i : nat) (t : option Ticker) :
  releases (fst (poll_loop client q n i t)) = 0%nat /\
  subscriptions (fst (poll_loop client q n i t)) = 0%nat.
Proof.
  revert i t. induction n as [|n IH]; intros i t.
  - split; reflexivity.
  - rewrite poll_loop_S.
    destruct (poll client i) as [msg| |[tk|]];
      unfold asyncio_sleep; cbn [bind emit of_answer raise ret fst snd app];
      try (split; reflexivity).
    + destruct (has_data tk); [split; reflexivity|].
      destruct (IH (S i) (Some tk)) as [Hr Hs].
      destruct (poll_loop client q n (S i) (Some tk)) as [tr r].
      split; assumption.
    + destruct (IH (S i) None) as [Hr Hs].
      destruct (poll_loop client q n (S i) None) as [tr r].
      split; assumption.
Qed.

(** One subscription is opened; it is released once when the polling loop
    ends normally, and not at all when the loop is left by an exception. *)
Lemma acquire_releases (symbol : str) :
  subscriptions (fst (acquire client symbol q)) = 1%nat /\
  releases (fst (acquire client symbol q))
  = match snd (poll_loop client q 50 0 None) with
    | Return _ => 1%nat
    | Raise _ => 0%nat
    end.
Proof.
  unfold acquire. rewrite !bind_fst. cbn [emit fst snd].
  rewrite !releases_app, !subscriptions_app.
  destruct (poll_loop_quiet 50 0 None) as [Hr Hs]. rewrite Hr, Hs.
  destruct (snd (poll_loop client q 50 0 None)) as [t|e].
  - rewrite !bind_fst. cbn [emit fst snd].
    rewrite !releases_app, !subscriptions_app.
    destruct t; split; reflexivity.
  - split; reflexivity.
Qed.

Lemma poll_loop_unready (n i : nat) (t : option Ticker) :
  (forall j, (i <= j < i + n)%nat -> unready (poll client j)) ->
  snd (poll_loop client q n i t) = Return (last_polled client n i t).
Proof.
  revert i t. induction n as [|n IH]; intros i t H.
  - reflexivity.
  - rewrite poll_loop_S. cbn [last_polled].
    assert (Hi : unready (poll client i)) by (apply H; lia).
    assert (Hrest : forall j, (S i <= j < S i + n)%nat -> unready (poll client j))
      by (intros j Hj; apply H; lia).
    destruct Hi as [Hi | (tk & Hi & Htk)]; rewrite Hi;
      unfold asyncio_sleep; rewrite !bind_snd;
      cbn [bind emit of_answer ret fst snd delivered].
    + apply IH. assumption.
    + rewrite Htk. apply IH. assumption.
Qed.

End Acquisition.

(** C1. Every run that reaches the subscription step opens exactly one
    subscription, and releases it exactly once when the polling loop ends
    normally (test satisfied, or 50 polls done); when the loop is left by
    an exception the subscription is not released.  With a gateway whose
    ticker lookup raises, the trace of "ASTS251114P00050000" ends after
    the first lookup, holds no [CancelMktData], and the answer is a 500;
    when the task is cancelled during the third sleep, the cancellation
    leaves the endpoint and no [CancelMktData] is sent either. *)
Theorem subscription_leaks_on_exception :
  (forall (client : Gateway) (q : Contract) (symbol : str),
     subscriptions (fst (acquire client symbol q)) = 1%nat /\
     releases (fst (acquire client symbol q))
     = match snd (poll_loop client q 50 0 None) with
       | Return _ => 1%nat
       | Raise _ => 0%nat
       end)
  /\
  get_option_risk poll_fails (py "ASTS251114P00050000")
  = ([ReqMarketDataType 4; QualifyContractsAsync asts_put; ReqMktData asts_put;
      Sleep; TickerOf asts_put],
     Error 500 (py "Not connected"))
  /\
  get_option_risk poll_cancelled (py "ASTS251114P00050000")
  = ([ReqMarketDataType 4; QualifyContractsAsync asts_put; ReqMktData asts_put;
      Sleep; TickerOf asts_put; Sleep; TickerOf asts_put; Sleep],
     Uncaught CancelledError)
  /\
  subscriptions (fst (get_option_risk poll_fails (py "ASTS251114P00050000"))) = 1%nat
  /\
  releases (fst (get_option_risk poll_fails (py "ASTS251114P00050000"))) = 0%nat
  /\
  releases (fst (get_option_risk poll_cancelled (py "ASTS251114P00050000"))) = 0%nat.
Proof.
  split; [|repeat split; vm_compute; reflexivity].
  intros client q symbol. apply acquire_releases.
Qed.

(** C2, as stated, fails: a ticker is delivered at each of the 50 polls
    and never satisfies the test, and the endpoint answers with a result
    (all fields zero), not with an error. *)
Lemma unsatisfied_polls_answered_with_zeros :
  has_data empty_ticker = false /\
  (forall i, poll silent_feed i = Gives (Some empty_ticker)) /\
  snd (get_option_risk silent_feed (py "ASTS251114P00050000"))
  = Ok (mkOptionGreeks (py "ASTS251114P00050000")
          zero zero zero zero zero zero 0 0 zero None).
Proof. repeat split; vm_compute; reflexivity. Qed.

Lemma int_or_zero_not_http (x : option float) (status : Z) (detail : str) :
  int_or_zero x <> Raise (HTTPException status detail).
Proof.
  unfold int_or_zero, int_of.
  destruct x as [v|]; [|discriminate].
  destruct (isnan v); [discriminate|].
  destruct (to_int v); discriminate.
Qed.

(** C2, amended. When none of the 50 polls raises or satisfies the test:
    if the last poll delivers no ticker (in particular when no ticker ever
    arrives) the acquisition fails with the 404 "No market data received
    after waiting"; if the last poll delivers a ticker, the acquisition
    does not fail with that error: it builds the response from this ticker,
    with every greek and the last price at zero.  The subscription is
    released once in both cases. *)
Theorem acquisition_after_fifty_polls
    (client : Gateway) (q : Contract) (symbol : str) :
  (forall j, (j < 50)%nat -> unready (poll client j)) ->
  (poll client 49 = Gives None ->
   snd (acquire client symbol q)
   = Raise (HTTPException 404 (py "No market data received after waiting")))
  /\
  (forall tk, poll client 49 = Gives (Some tk) ->
     snd (acquire client symbol q)
     = (vol <~ int_or_zero (volume tk) ;;
        oi <~ int_or_zero (openInterest tk) ;;
        Return (mkOptionGreeks symbol zero zero zero zero zero zero
                               vol oi zero (lastTime tk)))
     /\
     forall status detail,
       snd (acquire client symbol q) <> Raise (HTTPException status detail))
  /\
  releases (fst (acquire client symbol q)) = 1%nat.
Proof.
  intros Hpolls.
  assert (Hloop : snd (poll_loop client q 50 0 None)
                  = Return (delivered (poll client 49))).
  { rewrite (poll_loop_unready client q 50 0 None)
      by (intros j Hj; apply Hpolls; lia).
    reflexivity. }
  assert (Hacq : snd (acquire client symbol q)
                 = match delivered (poll client 49) with
                   | None => Raise (HTTPException 404
                                      (py "No market data received after waiting"))
                   | Some tk => build_response symbol tk
                   end).
  { unfold acquire. rewrite !bind_snd. cbn [emit snd]. rewrite Hloop.
    rewrite !bind_snd. cbn [emit snd].
    destruct (delivered (poll client 49)); reflexivity. }
  split; [|split].
  - intros H49. rewrite Hacq, H49. reflexivity.
  - intros tk H49.
    assert (Htk : has_data tk = false).
    { destruct (Hpolls 49%nat ltac:(lia)) as [H | (tk' & H & Htk')];
        rewrite H49 in H; [discriminate | injection H as ->; assumption]. }
    assert (Hresp : build_response symbol tk
                    = (vol <~ int_or_zero (volume tk) ;;
                       oi <~ int_or_zero (openInterest tk) ;;
                       Return (mkOptionGreeks symbol zero zero zero zero zero zero
                                              vol oi zero (lastTime tk)))).
    { unfold build_response. unfold has_data in Htk.
      destruct (first_greeks tk); [discriminate|]. rewrite Htk. reflexivity. }
    rewrite Hacq, H49. cbn [delivered]. rewrite Hresp. split; [reflexivity|].
    intros status detail.
    pose proof (int_or_zero_not_http (volume tk) status detail) as Hv.
    pose proof (int_or_zero_not_http (openInterest tk) status detail) as Ho.
    destruct (int_or_zero (volume tk)) as [vol|e]; cbn [rbind];
      [|intros E; apply Hv; congruence].
    destruct (int_or_zero (openInterest tk)) as [oi|e]; cbn [rbind];
      [discriminate | intros E; apply Ho; congruence].
  - rewrite (proj2 (acquire_releases client q symbol)), Hloop. reflexivity.
Qed.

Lemma acquisition_after_fifty_polls_witness :
  (forall j, (j < 50)%nat -> unready (poll silent_feed j)) /\
  releases (fst (acquire silent_feed (py "ASTS251114P00050000") asts_put)) = 1%nat.
Proof.
  assert (H : forall j, (j < 50)%nat -> unready (poll silent_feed j)).
  { intros j _. right. exists empty_ticker. split; reflexivity. }
  split; [exact H|].
  exact (proj2 (proj2 (acquisition_after_fifty_polls
                         silent_feed asts_put (py "ASTS251114P00050000") H))).
Defined.

(* ================================================================== *)
(** ** The greeks fallback chain *)
(* ================================================================== *)

Lemma greek_reports (g : option OptionComputation)
    (f : OptionComputation -> option float) : reports g f (greek g f).
Proof.
  unfold reports, greek, or_zero. destruct g as [s|]; [|reflexivity].
  destruct (f s); reflexivity.
Qed.

(** The integer conversion fails on an infinity only. *)
Lemma int_or_zero_raise (x : option float) (e : exn) :
  int_or_zero x = Raise e ->
  (exists msg, e = OverflowError msg) /\ exists s, x = Some (S754_infinity s).
Proof.
  unfold int_or_zero, int_of.
  destruct x as [[s|s| |s m k]|]; cbn; try discriminate.
  intros E. injection E as <-. split; eexists; reflexivity.
Qed.

(** C5, as stated, fails: a greek that arrives as NaN is not taken for
    absent; it is reported as it is, where the claim has 0.0. *)
Lemma nan_greek_is_reported :
  delta (mkGreeks None (Some S754_nan) None None None None) = Some S754_nan /\
  snd (get_option_risk nan_feed (py "ASTS251114P00050000"))
  = Ok (mkOptionGreeks (py "ASTS251114P00050000")
          S754_nan zero zero zero zero zero 0 0 zero None).
Proof. split; vm_compute; reflexivity. Qed.

(** C5, amended. For every ticker there is one selected greeks set, the
    first present among model, bid, ask, last-trade (none when all four
    are absent).  The response can only fail on the integer conversion of
    an infinite volume or open interest; when it is built, each greek
    field (delta, gamma, vega, theta, implied vol, underlying price) is the
    selected set's field when that field is present and 0.0 otherwise, so
    no greek field is null.  NaN is taken for absent only for the last
    price, the volume and the open interest; a greek field that holds NaN
    is present and reported as NaN. *)
Theorem greeks_fallback_chain (symbol : str) (t : Ticker) :
  exists g : option OptionComputation,
    ((forall m, modelGreeks t = Some m -> g = Some m) /\
     (forall b, modelGreeks t = None -> bidGreeks t = Some b -> g = Some b) /\
     (forall a, modelGreeks t = None -> bidGreeks t = None ->
                askGreeks t = Some a -> g = Some a) /\
     (modelGreeks t = None -> bidGreeks t = None -> askGreeks t = None ->
      g = lastGreeks t))
    /\
    (forall body, build_response symbol t = Return body ->
       og_symbol body = symbol /\
       reports g delta (og_delta body) /\
       reports g gamma (og_gamma body) /\
       reports g vega (og_vega body) /\
       reports g theta (og_theta body) /\
       reports g impliedVol (og_implied_vol body) /\
       reports g undPrice (og_underlying_price body) /\
       (forall s, g = Some s -> delta s = Some S754_nan ->
                  og_delta body = S754_nan) /\
       og_last_price body
       = match last t with
         | Some v => if isnan v then zero else v
         | None => zero
         end /\
       (volume t = None \/ volume t = Some S754_nan -> og_volume body = 0) /\
       (openInterest t = None \/ openInterest t = Some S754_nan ->
        og_open_interest body = 0))
    /\
    (forall e, build_response symbol t = Raise e ->
       (exists msg, e = OverflowError msg) /\
       (exists s, volume t = Some (S754_infinity s) \/
                  openInterest t = Some (S754_infinity s))).
Proof.
  exists (first_greeks t). split; [|split].
  - unfold first_greeks. repeat split.
    + intros m ->. reflexivity.
    + intros b -> ->. reflexivity.
    + intros a -> -> ->. reflexivity.
    + intros -> -> ->. reflexivity.
  - intros body. unfold build_response.
    destruct (int_or_zero (volume t)) as [vol|e] eqn:Hvol; cbn [rbind];
      [|discriminate].
    destruct (int_or_zero (openInterest t)) as [oi|e] eqn:Hoi; cbn [rbind];
      [|discriminate].
    intros E. injection E as <-. cbn.
    repeat split; try apply greek_reports.
    + intros s Hs Hd. unfold greek. rewrite Hs, Hd. reflexivity.
    + unfold not_nan, or_zero. destruct (last t) as [v|]; [|reflexivity].
      destruct (isnan v); reflexivity.
    + intros [Hv | Hv]; rewrite Hv in Hvol; cbn in Hvol; congruence.
    + intros [Hv | Hv]; rewrite Hv in Hoi; cbn in Hoi; congruence.
  - intros e. unfold build_response.
    destruct (int_or_zero (volume t)) as [vol|e1] eqn:Hvol; cbn [rbind].
    + destruct (int_or_zero (openInterest t)) as [oi|e2] eqn:Hoi; cbn [rbind];
        [discriminate|].
      intros E. injection E as <-.
      destruct (int_or_zero_raise _ _ Hoi) as [Hm [s Hs]].
      split; [assumption | exists s; right; assumption].
    + intros E. injection E as <-.
      destruct (int_or_zero_raise _ _ Hvol) as [Hm [s Hs]].
      split; [assumption | exists s; left; assumption].
Qed.

(* ================================================================== *)
(** ** Price derivation *)
(* ================================================================== *)

Lemma nan_to_none_Some (x : option float) (v : float) :
  nan_to_none x = Some v -> x = Some v /\ isnan v = false.
Proof.
  unfold nan_to_none. destruct x as [w|]; [|discriminate].
  destruct (isnan w) eqn:E; [discriminate|].
  intros H. injection H as <-. split; [reflexivity | assumption].
Qed.

Lemma finite_not_nan (v : float) : is_finite v = true -> isnan v = false.
Proof. destruct v; simpl; congruence. Qed.

(** C3, as stated, fails.  The midpoint of two finite quotes can overflow
    to infinity; an infinite last price is not NaN and is returned; and a
    bid of 0.0 is taken for absent, so that the ask is returned where the
    midpoint is 6.0. *)
Lemma price_not_always_finite_nor_midpoint :
  (is_finite max_float = true /\
   snapshot_price (quote None (Some max_float) (Some max_float) None)
   = S754_infinity false) /\
  snapshot_price (quote (Some (S754_infinity false))
                        (Some (of_Z 10)) (Some (of_Z 12)) None)
  = S754_infinity false /\
  (snapshot_price (quote None (Some (of_Z 0)) (Some (of_Z 12)) None) = of_Z 12 /\
   fdiv (fadd (of_Z 0) (of_Z 12)) (of_Z 2) = of_Z 6).
Proof. repeat split; vm_compute; reflexivity. Qed.

(** C3, amended. With NaN normalised to absent, and for a snapshot whose
    present bid, ask and close are not zero: the derived price is last if
    present (any value that is not NaN); else the binary64 midpoint
    (bid+ask)/2 whenever both bid and ask are present; else close; else
    bid; else ask; else 0.0.  last=None, bid=10, ask=12 gives 11.0 and
    all-absent gives 0.0.  The derivation is a total function; for every
    snapshot, zero quotes included, outside the midpoint case (last absent,
    bid and ask both present and not zero) its result is never NaN, and it
    is finite whenever the present fields are finite. *)
Theorem price_precedence (t : Ticker) :
  let v_last := nan_to_none (last t) in
  let v_bid := nan_to_none (bid t) in
  let v_ask := nan_to_none (ask t) in
  let v_close := nan_to_none (close t) in
  (absent_or_nonzero v_bid -> absent_or_nonzero v_ask -> absent_or_nonzero v_close ->
   snapshot_price t = price_by_precedence v_last v_bid v_ask v_close)
  /\
  (v_last <> None \/ ~ quoted v_bid \/ ~ quoted v_ask ->
   isnan (snapshot_price t) = false /\
   (absent_or_finite v_last -> absent_or_finite v_bid ->
    absent_or_finite v_ask -> absent_or_finite v_close ->
    is_finite (snapshot_price t) = true))
  /\
  snapshot_price (quote None (Some (of_Z 10)) (Some (of_Z 12)) None) = of_Z 11
  /\
  snapshot_price (quote None None None None) = zero.
Proof.
  intros v_last v_bid v_ask v_close.
  split; [|split; [|split; vm_compute; reflexivity]].
  - intros Hb Ha Hc.
    unfold snapshot_price. fold v_last v_bid v_ask v_close.
    destruct v_last as [l|]; [reflexivity|].
    destruct v_bid as [b|], v_ask as [a|], v_close as [c|];
      cbn in Hb, Ha, Hc |- *; rewrite ?Hb, ?Ha, ?Hc; reflexivity.
  - intros Hsel.
    pose proof (nan_to_none_Some (last t)) as Nl. fold v_last in Nl.
    pose proof (nan_to_none_Some (bid t)) as Nb. fold v_bid in Nb.
    pose proof (nan_to_none_Some (ask t)) as Na. fold v_ask in Na.
    pose proof (nan_to_none_Some (close t)) as Nc. fold v_close in Nc.
    unfold snapshot_price. fold v_last v_bid v_ask v_close.
    clearbody v_last v_bid v_ask v_close.
    assert (Hmid : v_last = None -> truth v_bid && truth v_ask = false).
    { intros Hl. destruct Hsel as [Hsel | [Hsel | Hsel]]; [congruence| |].
      - destruct v_bid as [b|]; [|reflexivity]. simpl.
        destruct (truthy b) eqn:E; [|reflexivity].
        exfalso. apply Hsel. exists b. split; [reflexivity | exact E].
      - destruct v_ask as [a|]; [|apply andb_false_r]. simpl.
        destruct (truthy a) eqn:E; [|apply andb_false_r].
        exfalso. apply Hsel. exists a. split; [reflexivity | exact E]. }
    destruct v_last as [l|].
    + split; [apply (Nl l eq_refl) | intros Fl _ _ _; exact Fl].
    + rewrite (Hmid eq_refl). clear Hmid Hsel Nl.
      destruct v_close as [c|], v_bid as [b|], v_ask as [a|]; simpl;
        repeat match goal with
               | |- context [truthy ?x] => destruct (truthy x)
               end;
        (split;
         [first [apply (Nc _ eq_refl) | apply (Nb _ eq_refl)
                | apply (Na _ eq_refl) | reflexivity]
         |intros _ Fb Fa Fc; simpl in Fb, Fa, Fc;
          first [exact Fc | exact Fb | exact Fa | reflexivity]]).
Qed.

Lemma price_precedence_witness :
  absent_or_nonzero (nan_to_none (Some (of_Z 10))) /\
  snapshot_price (quote None (Some (of_Z 10)) (Some S754_nan) (Some (of_Z 9)))
  = price_by_precedence None (Some (of_Z 10)) None (Some (of_Z 9)) /\
  isnan (snapshot_price (quote None (Some (of_Z 0)) (Some (of_Z 12)) None)) = false.
Proof.
  split; [reflexivity|]. split.
  - apply (proj1 (price_precedence
                    (quote None (Some (of_Z 10)) (Some S754_nan) (Some (of_Z 9)))));
      reflexivity.
  - apply (proj1 (proj2 (price_precedence
                           (quote None (Some (of_Z 0)) (Some (of_Z 12)) None)))).
    right. left. intros (v & Hv & Ht). injection Hv as <-. discriminate Ht.
Defined.

(* ================================================================== *)
(** ** Connection retries *)
(* ================================================================== *)

Lemma get_ib_unfold (connect : nat -> answer unit) :
  get_ib false connect
  = match connect 0%nat with
    | Gives _ => ([ConnectAsync], Return tt)
    | Cancelled => ([ConnectAsync], Raise CancelledError)
    | Raises _ =>
        match connect 1%nat with
        | Gives _ => ([ConnectAsync; SleepFor 2; ConnectAsync], Return tt)
        | Cancelled =>
            ([ConnectAsync; SleepFor 2; ConnectAsync], Raise CancelledError)
        | Raises _ =>
            match connect 2%nat with
            | Gives _ =>
                ([ConnectAsync; SleepFor 2; ConnectAsync; SleepFor 4;
                  ConnectAsync], Return tt)
            | Cancelled =>
                ([ConnectAsync; SleepFor 2; ConnectAsync; SleepFor 4;
                  ConnectAsync], Raise CancelledError)
            | Raises _ =>
                ([ConnectAsync; SleepFor 2; ConnectAsync; SleepFor 4;
                  ConnectAsync],
                 Raise (HTTPException 503 (py "Could not connect to IBKR")))
            end
        end
    end.
Proof.
  unfold get_ib. change (Z.to_nat retries) with 3%nat.
  cbn [connect_loop].
  destruct (connect 0%nat); try reflexivity.
  change (Z.of_nat 0 <? retries - 1) with true. cbn iota.
  destruct (connect 1%nat); try reflexivity.
  change (Z.of_nat 1 <? retries - 1) with true. cbn iota.
  destruct (connect 2%nat); reflexivity.
Qed.

Lemma get_ib_outcomes (connect : nat -> answer unit) :
  (let '(tr, r) := get_ib false connect in
   (List.length (filter is_connect tr) <= 3)%nat /\
   (slept tr = [] \/ slept tr = [2] \/ slept tr = [2; 4]) /\
   (r = Raise (HTTPException 503 (py "Could not connect to IBKR")) <->
    (exists m0 m1 m2,
       connect 0%nat = Raises m0 /\ connect 1%nat = Raises m1 /\
       connect 2%nat = Raises m2)) /\
   (r = Return tt <->
    (exists k, (k < 3)%nat /\ connect k = Gives tt /\
               (forall j, (j < k)%nat -> exists m, connect j = Raises m) /\
               List.length (slept tr) = k /\
               List.length (filter is_connect tr) = S k))).
Proof.
  rewrite get_ib_unfold.
  destruct (connect 0%nat) as [m0| |[]] eqn:H0;
    [destruct (connect 1%nat) as [m1| |[]] eqn:H1;
       [destruct (connect 2%nat) as [m2| |[]] eqn:H2|..]|..];
    (split; [cbn; lia|]);
    (split; [cbn; auto|]);
    (split; [split; [try discriminate; intros _;
                     do 3 eexists; repeat split; reflexivity
                    |intros (a & b & c & E0 & E1 & E2); congruence]|]);
    (split; [try discriminate|]).
  all: try (intros (k & Hk & Hg & Hj & _);
            destruct k as [|[|[|k]]]; try lia; try congruence;
            try (destruct (Hj 0%nat ltac:(lia)) as [m E]; congruence);
            try (destruct (Hj 1%nat ltac:(lia)) as [m E]; congruence)).
  - intros _. exists 2%nat. repeat split; try lia; try assumption.
    intros j Hj. assert (j = 0%nat \/ j = 1%nat) as [-> | ->] by lia; eauto.
  - intros _. exists 1%nat. repeat split; try lia; try assumption.
    intros j Hj. assert (j = 0%nat) by lia. subst. eauto.
  - intros _. exists 0%nat. repeat split; try lia; try assumption.
Qed.

Lemma get_ib_trace (connect : nat -> answer unit) :
  let '(tr, r) := get_ib false connect in
  ((forall m, connect 0%nat <> Raises m) -> tr = [ConnectAsync]) /\
  (forall m0, connect 0%nat = Raises m0 ->
     ((forall m, connect 1%nat <> Raises m) ->
      tr = [ConnectAsync; SleepFor 2; ConnectAsync]) /\
     (forall m1, connect 1%nat = Raises m1 ->
      tr = [ConnectAsync; SleepFor 2; ConnectAsync; SleepFor 4; ConnectAsync])) /\
  (r = Raise CancelledError <->
   (exists k, (k < 3)%nat /\ connect k = Cancelled /\
              (forall j, (j < k)%nat -> exists m, connect j = Raises m))).
Proof.
  rewrite get_ib_unfold.
  destruct (connect 0%nat) as [m0| |[]] eqn:H0;
    [destruct (connect 1%nat) as [m1| |[]] eqn:H1;
       [destruct (connect 2%nat) as [m2| |[]] eqn:H2|..]|..];
    (split; [first [reflexivity | intros H; exfalso; eapply H; reflexivity]|]);
    (split; [intros m Hm;
             first [discriminate Hm
                   |split; [first [reflexivity
                                  |intros H; exfalso; eapply H; reflexivity]
                           |intros m' Hm'; first [reflexivity | discriminate Hm']]]
            |]);
    (split; [try discriminate|]).
  all: try (intros (k & Hk & Hg & Hj);
            destruct k as [|[|[|k]]]; try lia; try congruence;
            try (destruct (Hj 0%nat ltac:(lia)) as [m E]; congruence);
            try (destruct (Hj 1%nat ltac:(lia)) as [m E]; congruence)).
  - intros _. exists 2%nat. repeat split; try lia; try assumption.
    intros j Hj. assert (j = 0%nat \/ j = 1%nat) as [-> | ->] by lia; eauto.
  - intros _. exists 1%nat. repeat split; try lia; try assumption.
    intros j Hj. assert (j = 0%nat) by lia. subst. eauto.
  - intros _. exists 0%nat. repeat split; try lia; try assumption.
Qed.

(** X1. [get_ib] makes no call when the client is connected.  Otherwise
    it makes at most three connection attempts, and its calls are: one
    attempt when the first does not raise; an attempt, a sleep of 2 s and
    an attempt when the first raises and the second does not; an attempt,
    a sleep of 2 s, an attempt, a sleep of 4 s and an attempt when the
    first two raise, with no sleep after the third attempt, whatever it
    does.  It answers 503 "Could not connect to IBKR" exactly when the
    three attempts raise, returns at the first attempt that succeeds, and
    is left by the cancellation of an attempt. *)
Theorem get_ib_backoff (connect : nat -> answer unit) :
  get_ib true connect = ([], Return tt)
  /\
  (let '(tr, r) := get_ib false connect in
   (List.length (filter is_connect tr) <= 3)%nat /\
   (slept tr = [] \/ slept tr = [2] \/ slept tr = [2; 4]) /\
   (r = Raise (HTTPException 503 (py "Could not connect to IBKR")) <->
    (exists m0 m1 m2,
       connect 0%nat = Raises m0 /\ connect 1%nat = Raises m1 /\
       connect 2%nat = Raises m2)) /\
   (r = Return tt <->
    (exists k, (k < 3)%nat /\ connect k = Gives tt /\
               (forall j, (j < k)%nat -> exists m, connect j = Raises m) /\
               List.length (slept tr) = k /\
               List.length (filter is_connect tr) = S k)) /\
   ((forall m, connect 0%nat <> Raises m) -> tr = [ConnectAsync]) /\
   (forall m0, connect 0%nat = Raises m0 ->
      ((forall m, connect 1%nat <> Raises m) ->
       tr = [ConnectAsync; SleepFor 2; ConnectAsync]) /\
      (forall m1, connect 1%nat = Raises m1 ->
       tr = [ConnectAsync; SleepFor 2; ConnectAsync; SleepFor 4; ConnectAsync])) /\
   (r = Raise CancelledError <->
    (exists k, (k < 3)%nat /\ connect k = Cancelled /\
               (forall j, (j < k)%nat -> exists m, connect j = Raises m)))).
Proof.
  split; [reflexivity|].
  pose proof (get_ib_outcomes connect) as Hout.
  pose proof (get_ib_trace connect) as Htr.
  destruct (get_ib false connect) as [tr r].
  destruct Hout as (H1 & H2 & H3 & H4).
  destruct Htr as (H5 & H6 & H7).
  repeat (split; [assumption|]). assumption.
Qed.

(* ================================================================== *)
(** ** Account values *)
(* ================================================================== *)

Lemma find_first_with {A} (p : A -> bool) (l : list A) :
  match find p l with
  | Some x => first_with p l x
  | None => none_with p l
  end.
Proof.
  induction l as [|y l IH]; simpl.
  - constructor.
  - destruct (p y) eqn:Hy.
    + exists [], l. repeat split; [assumption | constructor].
    + destruct (find p l) as [x|].
      * destruct IH as (pre & post & -> & Hx & Hpre).
        exists (y :: pre), post. repeat split; [assumption|].
        constructor; assumption.
      * constructor; assumption.
Qed.

Lemma find_filter {A} (p q : A -> bool) (l : list A) :
  find p (filter q l) = find (fun x => q x && p x) l.
Proof.
  induction l as [|y l IH]; simpl; [reflexivity|].
  destruct (q y); simpl; [|exact IH].
  destruct (p y); [reflexivity | exact IH].
Qed.

(** X2. [get_val] returns the default exactly when no account value has
    the tag (unless a value equals the default); otherwise it returns the
    value of an entry with that tag: the first one in the requested
    currency when a non-empty currency is requested and such an entry
    exists; else the first one in currency "BASE"; else the first entry
    with the tag. *)
Theorem get_val_priority (v : list AccountValue) (tag : str)
    (currency : option str) (default : str) :
  let wanted := match currency with Some (c0 :: c') => Some (c0 :: c') | _ => None end in
  (none_with (has_tag tag) v /\ get_val v tag currency default = default)
  \/
  (exists m,
     In m v /\ av_tag m = tag /\ get_val v tag currency default = av_value m /\
     ((exists c, wanted = Some c /\ first_with (has_tag_currency tag c) v m)
      \/
      ((forall c, wanted = Some c -> none_with (has_tag_currency tag c) v) /\
       first_with (has_tag_currency tag (py "BASE")) v m)
      \/
      ((forall c, wanted = Some c -> none_with (has_tag_currency tag c) v) /\
       none_with (has_tag_currency tag (py "BASE")) v /\
       first_with (has_tag tag) v m))).
Proof.
  intros wanted. unfold get_val.
  pose proof (find_first_with (has_tag tag) v) as Hfirst.
  assert (Hhead : filter (fun x => str_eqb (av_tag x) tag) v
                  = match find (has_tag tag) v with
                    | Some m0 => m0 :: tl (filter (has_tag tag) v)
                    | None => []
                    end).
  { clear. induction v as [|y v IH]; simpl; [reflexivity|].
    unfold has_tag at 1 3. destruct (str_eqb (av_tag y) tag); [reflexivity|].
    rewrite IH. destruct (find (has_tag tag) v); reflexivity. }
  destruct (find (has_tag tag) v) as [m0|] eqn:Hm0.
  2: { left. rewrite Hhead. split; [exact Hfirst | reflexivity]. }
  right.
  assert (Hfilt : forall cur,
            find (fun m => str_eqb (av_currency m) cur)
                 (filter (fun x => str_eqb (av_tag x) tag) v)
            = find (has_tag_currency tag cur) v).
  { intros cur. apply find_filter. }
  assert (Hin : forall p m, first_with p v m -> In m v).
  { intros p m (pre & post & -> & _). apply in_or_app. right. left. reflexivity. }
  assert (Htag : forall cur m, first_with (has_tag_currency tag cur) v m ->
                               av_tag m = tag).
  { intros cur m (pre & post & _ & Hm & _). unfold has_tag_currency in Hm.
    apply andb_true_iff in Hm as [Hm _]. apply str_eqb_eq in Hm. exact Hm. }
  set (matches := filter (fun x => str_eqb (av_tag x) tag) v) in *.
  assert (Hne : exists rest, matches = m0 :: rest) by (rewrite Hhead; eauto).
  destruct Hne as [rest Hmatches]. rewrite Hmatches. rewrite <- Hmatches.
  assert (Hbase :
            (forall c, wanted = Some c -> none_with (has_tag_currency tag c) v) ->
            exists m,
              In m v /\ av_tag m = tag /\
              match find (fun m => str_eqb (av_currency m) (py "BASE")) matches with
              | Some m => av_value m
              | None => av_value m0
              end = av_value m /\
              ((exists c, wanted = Some c /\ first_with (has_tag_currency tag c) v m)
               \/
               ((forall c, wanted = Some c -> none_with (has_tag_currency tag c) v) /\
                first_with (has_tag_currency tag (py "BASE")) v m)
               \/
               ((forall c, wanted = Some c -> none_with (has_tag_currency tag c) v) /\
                none_with (has_tag_currency tag (py "BASE")) v /\
                first_with (has_tag tag) v m))).
  { intros Hnone. unfold matches. rewrite Hfilt.
    pose proof (find_first_with (has_tag_currency tag (py "BASE")) v) as Hb.
    destruct (find (has_tag_currency tag (py "BASE")) v) as [m|].
    - exists m. split; [eapply Hin; exact Hb|].
      split; [eapply Htag; exact Hb|]. split; [reflexivity|].
      right. left. split; assumption.
    - exists m0. split; [eapply Hin; exact Hfirst|].
      split; [destruct Hfirst as (pre & post & _ & Hm & _);
              apply str_eqb_eq in Hm; exact Hm|].
      split; [reflexivity|].
      right. right. repeat split; assumption. }
  destruct currency as [[|c0 c']|]; cbn [wanted] in *.
  - apply Hbase. intros c Hc. discriminate Hc.
  - unfold matches at 1. rewrite Hfilt.
    pose proof (find_first_with (has_tag_currency tag (c0 :: c')) v) as Hc.
    destruct (find (has_tag_currency tag (c0 :: c')) v) as [m|].
    + exists m. split; [eapply Hin; exact Hc|].
      split; [eapply Htag; exact Hc|]. split; [reflexivity|].
      left. exists (c0 :: c'). split; [reflexivity | exact Hc].
    + apply Hbase. intros c E. injection E as <-. exact Hc.
  - apply Hbase. intros c Hc. discriminate Hc.
Qed.

(** X3. The base currency of the summary is "Unknown" when no account
    value is tagged NetLiquidation; it is the currency of the first
    NetLiquidation entry whose currency is not "BASE" when there is one
    (and then it is not "BASE"); it is "BASE" only when every
    NetLiquidation entry is in "BASE". *)
Theorem base_curr_selection (v : list AccountValue) :
  (none_with is_net_liquidation v /\ base_curr v = py "Unknown")
  \/
  (exists x, first_with is_net_liquidation_not_base v x /\
             base_curr v = av_currency x /\ base_curr v <> py "BASE")
  \/
  (exists x, first_with is_net_liquidation v x /\
             Forall (fun y => is_net_liquidation y = true ->
                              av_currency y = py "BASE") v /\
             base_curr v = py "BASE").
Proof.
  unfold base_curr.
  pose proof (find_first_with is_net_liquidation_not_base v) as Hnb.
  pose proof (find_first_with is_net_liquidation v) as Hnl.
  change (fun x => str_eqb (av_tag x) (py "NetLiquidation")
                   && negb (str_eqb (av_currency x) (py "BASE")))
    with is_net_liquidation_not_base.
  change (fun x => str_eqb (av_tag x) (py "NetLiquidation"))
    with is_net_liquidation.
  destruct (find is_net_liquidation_not_base v) as [x|].
  - right. left. exists x. split; [exact Hnb|]. split; [reflexivity|].
    destruct Hnb as (pre & post & _ & Hx & _).
    unfold is_net_liquidation_not_base in Hx.
    apply andb_true_iff in Hx as [_ Hx]. apply negb_true_iff in Hx.
    apply str_eqb_neq in Hx. exact Hx.
  - assert (Hall : Forall (fun y => is_net_liquidation y = true ->
                                    av_currency y = py "BASE") v).
    { eapply Forall_impl; [|exact Hnb]. intros y Hy Hnly.
      unfold is_net_liquidation_not_base in Hy.
      unfold is_net_liquidation in Hnly. rewrite Hnly in Hy. simpl in Hy.
      apply negb_false_iff in Hy. apply str_eqb_eq in Hy. exact Hy. }
    destruct (find is_net_liquidation v) as [x|].
    + right. right. exists x. split; [exact Hnl|]. split; [exact Hall|].
      destruct Hnl as (pre & post & Hv & Hx & _).
      rewrite Forall_forall in Hall. apply Hall; [|exact Hx].
      rewrite Hv. apply in_or_app. right. left. reflexivity.
    + left. split; [exact Hnl | reflexivity].
Qed.

Lemma get_currencies_kept (v : list AccountValue) :
  (forall items,
     get_currencies v = Return items <->
     Forall2 currency_item_of (filter is_cash_balance v) items)
  /\
  (forall items,
     get_currencies v = Return items ->
     Forall (fun it => ci_currency it <> py "BASE") items)
  /\
  ((exists e, get_currencies v = Raise e) <->
   Exists (fun x => of_str (av_value x) = None) (filter is_cash_balance v))
  /\
  (forall e, get_currencies v = Raise e -> exists msg, e = ValueError msg).
Proof.
  assert (Hchar : forall items,
            get_currencies v = Return items <->
            Forall2 currency_item_of (filter is_cash_balance v) items).
  { induction v as [|x v IH]; intros items; simpl.
    - split.
      + intros E. injection E as <-. constructor.
      + intros H. inversion H. reflexivity.
    - destruct (is_cash_balance x); [|apply IH].
      unfold float_of. destruct (of_str (av_value x)) as [a|] eqn:Ha; cbn [rbind].
      + destruct (get_currencies v) as [its|e] eqn:Hv; cbn [rbind].
        * split.
          -- intros E. injection E as <-. constructor.
             ++ split; [reflexivity | exact Ha].
             ++ apply IH. reflexivity.
          -- intros H. inversion H as [|? it ? its' [Hc Hamt] Hrest]; subst.
             apply IH in Hrest. injection Hrest as <-.
             rewrite Ha in Hamt. injection Hamt as ->.
             destruct it as [c a']. simpl in Hc. subst c. reflexivity.
        * split; [discriminate|].
          intros H. inversion H as [|? it ? its' _ Hrest]; subst.
          apply IH in Hrest. discriminate Hrest.
      + split; [discriminate|].
        intros H. inversion H as [|? it ? its' [_ Hamt] _]; subst.
        rewrite Ha in Hamt. discriminate Hamt. }
  split; [exact Hchar|]. split; [|split].
  - intros items Hitems. apply Hchar in Hitems.
    assert (Hsel : Forall (fun x => av_currency x <> py "BASE")
                          (filter is_cash_balance v)).
    { apply Forall_forall. intros x Hx. apply filter_In in Hx as [_ Hx].
      unfold is_cash_balance in Hx. apply andb_true_iff in Hx as [_ Hx].
      apply negb_true_iff in Hx. apply str_eqb_neq in Hx. exact Hx. }
    clear Hchar. revert Hsel.
    induction Hitems as [|x it l its [Hc _] _ IH]; intros Hsel; [constructor|].
    inversion Hsel; subst. constructor; [congruence | apply IH; assumption].
  - clear Hchar. induction v as [|x v IH]; simpl.
    + split; [intros [e E]; discriminate | intros H; inversion H].
    + destruct (is_cash_balance x); [|exact IH].
      unfold float_of. destruct (of_str (av_value x)) as [a|] eqn:Ha; cbn [rbind].
      * destruct (get_currencies v) as [its|e] eqn:Hv; cbn [rbind].
        -- split; [intros [e E]; discriminate|].
           intros H. inversion H as [? ? H0|? ? H0]; subst; [congruence|].
           apply IH in H0. destruct H0 as [e E]. discriminate E.
        -- split; [|eauto]. intros _. apply Exists_cons_tl. apply IH. eauto.
      * split; [|eauto]. intros _. apply Exists_cons_hd. exact Ha.
  - clear Hchar. induction v as [|x v IH]; simpl; intros e.
    + discriminate.
    + destruct (is_cash_balance x); [|apply IH].
      unfold float_of. destruct (of_str (av_value x)) as [a|]; cbn [rbind].
      * destruct (get_currencies v) as [its|e'] eqn:Hv; cbn [rbind];
          [discriminate|].
        intros E. injection E as <-. apply IH. reflexivity.
      * intros E. injection E as <-. eauto.
Qed.

(** X4. [get_currencies] answers with one item per account value tagged
    CashBalance whose currency is not "BASE", in their order, each with
    the entry's currency and the float its value reads as; so no item is
    in currency "BASE".  It fails exactly when the value of such an entry
    is not a float literal, and then with [ValueError]; entries it does
    not keep cannot make it fail.  A value with a leading separator
    character (FS), which [float] does not skip, makes it fail. *)
Theorem get_currencies_items (v : list AccountValue) :
  (forall items,
     get_currencies v = Return items <->
     Forall2 currency_item_of (filter is_cash_balance v) items)
  /\
  (forall items,
     get_currencies v = Return items ->
     Forall (fun it => ci_currency it <> py "BASE") items)
  /\
  ((exists e, get_currencies v = Raise e) <->
   Exists (fun x => of_str (av_value x) = None) (filter is_cash_balance v))
  /\
  (forall e, get_currencies v = Raise e -> exists msg, e = ValueError msg)
  /\
  get_currencies
    [mkAccountValue (py "CashBalance") (py "12.5") (py "USD");
     mkAccountValue (py "CashBalance") (py "20") (py "BASE");
     mkAccountValue (py "NetLiquidation") (py "n/a") (py "EUR");
     mkAccountValue (py "CashBalance") (py " -7 ") (py "EUR")]
  = Return [mkCurrencyItem (py "USD") (fdiv (of_Z 25) (of_Z 2));
            mkCurrencyItem (py "EUR") (of_Z (-7))]
  /\
  get_currencies
    [mkAccountValue (py "CashBalance") ("028"%char :: py "5") (py "USD")]
  = Raise (ValueError (py "could not convert string to float: '\x1c5'")).
Proof.
  destruct (get_currencies_kept v) as (H1 & H2 & H3 & H4).
  repeat (split; [assumption|]).
  split; vm_compute; reflexivity.
Qed.

(* ================================================================== *)
(** ** Sorting *)
(* ================================================================== *)

Section Sorting.

Context {A : Type}.
Variable lt : A -> A -> bool.

Lemma insert_by_perm (x : A) (l : list A) : Permutation (x :: l) (insert_by lt x l).
Proof.
  induction l as [|y l IH]; simpl; [apply Permutation_refl|].
  destruct (lt y x); [|apply Permutation_refl].
  eapply Permutation_trans; [apply perm_swap|].
  apply perm_skip. exact IH.
Qed.

Lemma sorted_by_perm (l : list A) : Permutation l (sorted_by lt l).
Proof.
  induction l as [|x l IH]; simpl; [constructor|].
  eapply Permutation_trans; [|apply insert_by_perm].
  apply perm_skip. exact IH.
Qed.

(** A selection of elements none of which is below another keeps its
    order: the sort is stable. *)
Lemma insert_by_stable (sel : A -> bool) (x : A) (l : list A) :
  (forall a b, sel a = true -> sel b = true -> lt a b = false) ->
  filter sel (insert_by lt x l) = filter sel (x :: l).
Proof.
  intros Hsel. induction l as [|y l IH]; [reflexivity|].
  cbn [insert_by]. destruct (lt y x) eqn:Hyx; [|reflexivity].
  cbn [filter] in *. rewrite IH.
  destruct (sel x) eqn:Hx, (sel y) eqn:Hy; try reflexivity.
  rewrite (Hsel y x Hy Hx) in Hyx. discriminate Hyx.
Qed.

Lemma sorted_by_stable (sel : A -> bool) (l : list A) :
  (forall a b, sel a = true -> sel b = true -> lt a b = false) ->
  filter sel (sorted_by lt l) = filter sel l.
Proof.
  intros Hsel. induction l as [|x l IH]; [reflexivity|].
  cbn [sorted_by fold_right]. fold (sorted_by lt l).
  rewrite insert_by_stable by assumption.
  cbn [filter]. rewrite IH. reflexivity.
Qed.

Hypothesis lt_asym : forall a b, lt a b = true -> lt b a = false.

Lemma insert_by_sorted (x : A) (l : list A) :
  Sorted (in_order lt) l -> Sorted (in_order lt) (insert_by lt x l).
Proof.
  induction 1 as [|y l Hl IH Hhd]; simpl.
  - repeat constructor.
  - destruct (lt y x) eqn:Hyx.
    + constructor; [exact IH|].
      destruct l as [|z l]; simpl.
      * constructor. apply lt_asym. exact Hyx.
      * destruct (lt z x); constructor.
        -- inversion Hhd; assumption.
        -- apply lt_asym. exact Hyx.
    + constructor; [constructor; assumption|].
      constructor. exact Hyx.
Qed.

Lemma sorted_by_sorted (l : list A) : Sorted (in_order lt) (sorted_by lt l).
Proof.
  induction l as [|x l IH]; simpl; [constructor|].
  apply insert_by_sorted. exact IH.
Qed.

End Sorting.

(* ================================================================== *)
(** ** Trades *)
(* ================================================================== *)

Lemma seen_In (eid : str) (ids : list str) : seen eid ids = true <-> In eid ids.
Proof.
  unfold seen. rewrite existsb_exists. split.
  - intros [x [Hin Hx]]. apply str_eqb_eq in Hx. subst. exact Hin.
  - intros Hin. exists eid. split; [exact Hin | apply str_eqb_refl].
Qed.

Lemma unique_items_ids (seen_ids : list str) (fills : list Fill) :
  NoDup (map ti_executionId (unique_items seen_ids fills)) /\
  (forall eid, In eid (map ti_executionId (unique_items seen_ids fills)) <->
               In eid (map f_execId fills) /\ ~ In eid seen_ids).
Proof.
  revert seen_ids. induction fills as [|f fills IH]; intros seen_ids; simpl.
  - split; [constructor | intros eid; tauto].
  - destruct (seen (f_execId f) seen_ids) eqn:Hs.
    + apply seen_In in Hs. destruct (IH seen_ids) as [Hnd Hin].
      split; [exact Hnd|]. intros eid. rewrite Hin. split.
      * tauto.
      * intros [[<- | H] Hn]; [contradiction | tauto].
    + assert (Hns : ~ In (f_execId f) seen_ids).
      { intros H. apply seen_In in H. congruence. }
      destruct (IH (f_execId f :: seen_ids)) as [Hnd Hin].
      simpl. split.
      * constructor; [|exact Hnd]. rewrite Hin. simpl. tauto.
      * intros eid. rewrite Hin. simpl.
        destruct (list_eq_dec ascii_dec (f_execId f) eid) as [<- | Hne]; tauto.
Qed.

Lemma later_sorted (l : list TradeItem) :
  Sorted (in_order later) l -> Sorted (fun a b => ti_time b <= ti_time a) l.
Proof.
  induction 1 as [|a l Hl IH Hhd]; [constructor|].
  constructor; [exact IH|].
  inversion Hhd as [|b l' Hb]; subst; constructor.
  unfold in_order, later in Hb. apply Z.ltb_ge in Hb. exact Hb.
Qed.

(** X5. The trades answered are those of [reqExecutionsAsync], or of
    [client.fills()] when that list is empty.  No execution id occurs
    twice in the answer and every execution id of the source occurs in
    it; the items are in descending order of time, items of equal time in
    the order of the source. *)
Theorem get_trades_unique_sorted (executions client_fills : list Fill) :
  let source := match executions with [] => client_fills | _ => executions end in
  let out := get_trades executions client_fills in
  NoDup (map ti_executionId out) /\
  (forall eid, In eid (map ti_executionId out) <-> In eid (map f_execId source)) /\
  StronglySorted (fun a b => ti_time b <= ti_time a) out /\
  (forall t, filter (fun x => ti_time x =? t) out
             = filter (fun x => ti_time x =? t) (unique_items [] source)) /\
  (List.length out <= List.length source)%nat.
Proof.
  intros source out. unfold out, get_trades. fold source.
  pose proof (sorted_by_perm later (unique_items [] source)) as Hperm.
  destruct (unique_items_ids [] source) as [Hnd Hin].
  split; [|split; [|split; [|split]]].
  - eapply Permutation_NoDup; [|exact Hnd]. apply Permutation_map. exact Hperm.
  - intros eid.
    assert (Hiff : In eid (map ti_executionId (unique_items [] source)) <->
                   In eid (map f_execId source) /\ ~ In eid []).
    { apply Hin. }
    split.
    + intros H. apply Hiff.
      eapply Permutation_in; [|exact H].
      apply Permutation_sym, Permutation_map. exact Hperm.
    + intros H. eapply Permutation_in; [apply Permutation_map; exact Hperm|].
      apply Hiff. simpl. tauto.
  - apply Sorted_StronglySorted.
    + intros a b c Hab Hbc. lia.
    + apply later_sorted. apply sorted_by_sorted.
      intros a b H. unfold later in *.
      apply Z.ltb_lt in H. apply Z.ltb_ge. lia.
  - intros t. apply sorted_by_stable. intros a b Ha Hb. unfold later.
    apply Z.eqb_eq in Ha, Hb. apply Z.ltb_ge. lia.
  - rewrite <- (Permutation_length Hperm).
    clear. generalize (@nil str). induction source as [|f l IH]; intros s; simpl.
    + lia.
    + destruct (seen (f_execId f) s); simpl; [specialize (IH s) | specialize (IH (f_execId f :: s))]; lia.
Qed.

(* ================================================================== *)
(** ** Contract search and market snapshot *)
(* ================================================================== *)

(** X6. [search_contract] never answers with an error of the gateway: an
    exception of the details request gives the empty list.  Otherwise it
    answers with the first five details at most, in the gateway's order,
    each with the ISIN of its first "ISIN" identifier, if any. *)
Theorem search_contract_at_most_five
    (reqContractDetails : ContractQuery -> answer (list ContractDetails))
    (symbol secType : str) :
  (forall msg, reqContractDetails (search_query symbol secType) = Raises msg ->
               search_contract reqContractDetails symbol secType = Return [])
  /\
  (forall details,
     reqContractDetails (search_query symbol secType) = Gives details ->
     exists items,
       search_contract reqContractDetails symbol secType = Return items /\
       List.length items = Nat.min 5 (List.length details) /\
       (forall i d, (i < 5)%nat -> nth_error details i = Some d ->
                    nth_error items i = Some (details_item d)))
  /\
  (forall items,
     search_contract reqContractDetails symbol secType = Return items ->
     (List.length items <= 5)%nat)
  /\
  (forall e, search_contract reqContractDetails symbol secType = Raise e ->
             e = CancelledError).
Proof.
  unfold search_contract. split; [|split; [|split]].
  - intros msg ->. reflexivity.
  - intros details ->. eexists. split; [reflexivity|]. split.
    + rewrite length_map, length_firstn. reflexivity.
    + intros i d Hi Hd. rewrite nth_error_map, nth_error_firstn.
      destruct (Nat.ltb_spec i 5) as [_|H]; [|lia].
      rewrite Hd. reflexivity.
  - intros items.
    destruct (reqContractDetails (search_query symbol secType)) as [m| |ds];
      intros E; try discriminate.
    + replace items with (map details_item (firstn 5 (@nil ContractDetails)))
        by congruence.
      simpl. lia.
    + replace items with (map details_item (firstn 5 ds)) by congruence.
      rewrite length_map, length_firstn. lia.
  - intros e.
    destruct (reqContractDetails (search_query symbol secType)) as [m| |ds];
      intros E; try discriminate. injection E as <-. reflexivity.
Qed.

(** X7. For every suffix of the table (.L, .DE, .PA, .AS, .SW, .MC, .MI
    with their venues and currencies) and every ticker, the stock search
    for ticker + suffix is routed to the suffix's venue in its currency,
    the option search to "SMART" in the same currency, and the search for
    any other security type carries neither exchange nor currency; all
    three ask for the ticker without its suffix, in upper case and without
    leading blanks.  The stock search for "bats.l" asks for BATS on LSE in
    GBP, the option search for " rms.pa" for RMS on SMART in EUR. *)
Theorem search_query_routing :
  Forall (fun e =>
            forall tk secType : str,
              let q := search_query (tk ++ fst e) secType in
              (exists t, left_trimmed tk t /\ uppercased t (cq_symbol q)) /\
              (secType = py "STK" ->
               cq_exchange q = fst (snd e) /\ cq_currency q = snd (snd e)) /\
              (secType = py "OPT" ->
               cq_exchange q = py "SMART" /\ cq_currency q = snd (snd e)) /\
              (secType <> py "STK" -> secType <> py "OPT" ->
               cq_secType q = secType /\ cq_exchange q = [] /\ cq_currency q = []))
         [(py ".L", (py "LSE", py "GBP")); (py ".DE", (py "IBIS", py "EUR"));
          (py ".PA", (py "SBF", py "EUR")); (py ".AS", (py "AEB", py "EUR"));
          (py ".SW", (py "EBS", py "CHF")); (py ".MC", (py "BM", py "EUR"));
          (py ".MI", (py "BVME", py "EUR"))]
  /\
  search_query (py "bats.l") (py "STK")
  = mkQuery (py "BATS") (py "STK") (py "LSE") (py "GBP")
  /\
  search_query (py " rms.pa") (py "OPT")
  = mkQuery (py "RMS") (py "OPT") (py "SMART") (py "EUR")
  /\
  search_query (py "es") (py "FUT") = mkQuery (py "ES") (py "FUT") [] [].
Proof.
  split; [|repeat split; vm_compute; reflexivity].
  apply Forall_forall. intros [suffix [exchange currency]] Hin tk secType.
  cbn [fst snd]. unfold search_query.
  rewrite (parse_symbol_suffixed tk suffix exchange currency Hin).
  split; [|split; [|split]].
  - exists (lstrip tk). split; [apply lstrip_left_trimmed|].
    replace (cq_symbol _) with (upper (lstrip tk)); [apply upper_uppercased|].
    rewrite <- lstrip_upper.
    destruct (str_eqb secType (py "STK")); [reflexivity|].
    destruct (str_eqb secType (py "OPT")); reflexivity.
  - intros ->. split; reflexivity.
  - intros ->. split; reflexivity.
  - intros H1 H2. apply str_eqb_neq in H1, H2. rewrite H1, H2.
    repeat split.
Qed.

(** X8. The snapshot endpoint never answers 504: the 504 raised for an
    empty ticker list is caught by the handler around it and answered as
    a 503 whose detail wraps it.  Its only HTTP errors are the 404 of an
    empty qualification, which is answered without asking for tickers,
    and 503. *)
Theorem snapshot_errors
    (http_str : Z -> str -> str)
    (qualify : ContractQuery -> answer (list (option StockContract)))
    (reqTickers : option StockContract -> answer (list (Ticker * option str)))
    (now symbol : str) :
  let answer := get_market_snapshot http_str qualify reqTickers now symbol in
  (forall status detail,
     answer = SnapshotError status detail -> status = 404 \/ status = 503)
  /\
  (qualify (snapshot_query symbol) = Gives [] <->
   exists detail, answer = SnapshotError 404 detail)
  /\
  (forall contract rest,
     qualify (snapshot_query symbol) = Gives (contract :: rest) ->
     reqTickers contract = Gives [] ->
     answer = SnapshotError 503
                (py "IBKR Error: "
                 ++ http_str 504 (py "No market data received from IBKR"))).
Proof.
  intros answer. unfold answer, get_market_snapshot.
  destruct (qualify (snapshot_query symbol)) as [m| |[|contract rest]] eqn:Hq.
  - split; [intros ? ? E; discriminate|]. split; [|intros ? ? E; discriminate].
    split; [discriminate | intros [d E]; discriminate].
  - split; [intros ? ? E; discriminate|]. split; [|intros ? ? E; discriminate].
    split; [discriminate | intros [d E]; discriminate].
  - split; [intros ? ? E; injection E as <- _; left; reflexivity|].
    split; [|intros ? ? E; discriminate].
    split; [eauto | reflexivity].
  - assert (Hstatus : forall status detail,
              match reqTickers contract with
              | Raises msg => SnapshotError 503 (py "IBKR Error: " ++ msg)
              | Cancelled => SnapshotUncaught UncaughtCancelled
              | Gives [] =>
                  SnapshotError 503
                    (py "IBKR Error: "
                     ++ http_str 504 (py "No market data received from IBKR"))
              | Gives ((t, time) :: _) =>
                  match contract with
                  | None => SnapshotUncaught UncaughtAttributeError
                  | Some c =>
                      SnapshotOk
                        (mkSnapshot (st_localSymbol c) (snapshot_price t)
                           (nan_to_none (bid t)) (nan_to_none (ask t))
                           (match time with Some x => x | None => now end))
                  end
              end = SnapshotError status detail -> status = 503).
    { intros status detail.
      destruct (reqTickers contract) as [m| |[|[t time] ts]];
        try discriminate; try (intros E; injection E as <- _; reflexivity).
      destruct contract; discriminate. }
    split; [intros status detail E; right; eapply Hstatus; exact E|].
    split.
    + split; [discriminate|]. intros [d E]. apply Hstatus in E. discriminate E.
    + intros c r E Ht. injection E as <- _. rewrite Ht. reflexivity.
Qed.

Lemma snapshot_errors_witness :
  let qualify := fun _ : ContractQuery => Gives [Some (mkStock 1 (py "SPY"))] in
  let reqTickers :=
    fun _ : option StockContract => @Gives (list (Ticker * option str)) [] in
  qualify (snapshot_query (py "SPY")) = Gives [Some (mkStock 1 (py "SPY"))] /\
  get_market_snapshot (fun _ d => d) qualify reqTickers (py "now") (py "SPY")
  = SnapshotError 503 (py "IBKR Error: No market data received from IBKR").
Proof.
  intros qualify reqTickers. split; [reflexivity|].
  exact (proj2 (proj2 (snapshot_errors (fun _ d => d) qualify reqTickers
                         (py "now") (py "SPY")))
               (Some (mkStock 1 (py "SPY"))) [] eq_refl eq_refl).
Defined.

(** X9. When the snapshot endpoint answers with a body, a contract was
    qualified and a ticker delivered; the body carries the local symbol
    of the first qualified contract, the price derived from the first
    ticker, that ticker's time (the clock's when it has none), and its
    bid and ask with NaN replaced by null: a bid or ask of the body is
    never NaN. *)
Theorem snapshot_body
    (http_str : Z -> str -> str)
    (qualify : ContractQuery -> answer (list (option StockContract)))
    (reqTickers : option StockContract -> answer (list (Ticker * option str)))
    (now symbol : str) (body : MarketSnapshot) :
  get_market_snapshot http_str qualify reqTickers now symbol = SnapshotOk body ->
  exists c cs t time ts,
    qualify (snapshot_query symbol) = Gives (Some c :: cs) /\
    reqTickers (Some c) = Gives ((t, time) :: ts) /\
    ms_symbol body = st_localSymbol c /\
    ms_price body = snapshot_price t /\
    (time = None -> ms_timestamp body = now) /\
    (forall x, time = Some x -> ms_timestamp body = x) /\
    (forall b, ms_bid body = Some b -> bid t = Some b /\ isnan b = false) /\
    (forall a, ms_ask body = Some a -> ask t = Some a /\ isnan a = false) /\
    (ms_bid body = None -> bid t = None \/ bid t = Some S754_nan) /\
    (ms_ask body = None -> ask t = None \/ ask t = Some S754_nan).
Proof.
  unfold get_market_snapshot.
  destruct (qualify (snapshot_query symbol)) as [m| |[|[c|] cs]];
    try discriminate;
    destruct (reqTickers _) as [m| |[|[t time] ts]] eqn:Ht; try discriminate.
  intros E. injection E as <-. cbn.
  assert (Hnone : forall x, nan_to_none x = None -> x = None \/ x = Some S754_nan).
  { intros [[]|]; cbn; intros H; try discriminate; auto. }
  exists c, cs, t, time, ts.
  split; [reflexivity|]. split; [exact Ht|].
  split; [reflexivity|]. split; [reflexivity|].
  split; [intros ->; reflexivity|]. split; [intros x ->; reflexivity|].
  split; [intros b H; apply nan_to_none_Some in H; exact H|].
  split; [intros a H; apply nan_to_none_Some in H; exact H|].
  split; apply Hnone.
Qed.

Lemma snapshot_body_witness :
  exists body,
    get_market_snapshot (fun _ d => d)
      (fun _ => Gives [Some (mkStock 1 (py "SPY"))])
      (fun _ => Gives [(quote None (Some S754_nan) (Some (of_Z 12)) None, None)])
      (py "now") (py "SPY") = SnapshotOk body /\
    ms_bid body = None /\ ms_price body = of_Z 12.
Proof.
  eexists. split; [reflexivity|].
  destruct (snapshot_body (fun _ d => d)
              (fun _ => Gives [Some (mkStock 1 (py "SPY"))])
              (fun _ => Gives [(quote None (Some S754_nan) (Some (of_Z 12)) None, None)])
              (py "now") (py "SPY") _ eq_refl)
    as (c & cs & t & time & ts & _ & Ht & _ & Hp & _).
  injection Ht as <- _ _. split; [reflexivity | exact Hp].
Defined.

(* ================================================================== *)
(** ** The allowed ids *)
(* ================================================================== *)

Lemma parse_ids_bad (tokens : list str) :
  Exists bad_token tokens -> parse_ids tokens = None.
Proof.
  induction 1 as [x rest [Hne Hbad] | x rest _ IH]; simpl.
  - destruct (strip x); [congruence|]. rewrite Hbad. reflexivity.
  - rewrite IH. destruct (strip x); [reflexivity|].
    destruct (int_of_str _); reflexivity.
Qed.

Lemma parse_ids_good (tokens : list str) :
  ~ Exists bad_token tokens ->
  exists l, parse_ids tokens = Some l /\
            map Some l
            = map (fun x => int_of_str (strip x))
                  (filter (fun x => negb (str_eqb (strip x) [])) tokens).
Proof.
  induction tokens as [|x rest IH]; intros Hgood; simpl.
  - exists []. split; reflexivity.
  - destruct IH as (l & Hl & Hmap).
    { intros H. apply Hgood. apply Exists_cons_tl. exact H. }
    destruct (strip x) as [|c0 r] eqn:Hx; simpl.
    + exists l. split; assumption.
    + destruct (int_of_str (c0 :: r)) as [n|] eqn:Hn.
      * rewrite Hl. exists (n :: l). split; [reflexivity|].
        simpl. rewrite Hx, Hn, Hmap. reflexivity.
      * exfalso. apply Hgood. apply Exists_cons_hd. split.
        -- rewrite Hx. discriminate.
        -- rewrite Hx. exact Hn.
Qed.

(** X10. One entry of TELEGRAM_ALLOWED_IDS that is neither blank nor an
    integer empties the whole list, so that no user id is allowed; when
    there is no such entry the list holds the integers of the non-blank
    entries, in their order. *)
Theorem allowed_ids_all_or_nothing (ids : str) :
  (Exists bad_token (split_on ","%char ids) ->
   allowed_ids_list ids = [] /\ forall user, ~ In user (allowed_ids_list ids))
  /\
  (~ Exists bad_token (split_on ","%char ids) ->
   ids <> [] ->
   map Some (allowed_ids_list ids)
   = map (fun x => int_of_str (strip x))
         (filter (fun x => negb (str_eqb (strip x) []))
                 (split_on ","%char ids))).
Proof.
  split.
  - intros Hbad.
    assert (E : allowed_ids_list ids = []).
    { unfold allowed_ids_list. destruct ids; [reflexivity|].
      rewrite (parse_ids_bad _ Hbad). reflexivity. }
    split; [exact E|]. intros user. rewrite E. intros [].
  - intros Hgood Hne. unfold allowed_ids_list.
    destruct ids as [|c ids']; [congruence|].
    destruct (parse_ids_good _ Hgood) as (l & -> & Hmap). exact Hmap.
Qed.

Lemma allowed_ids_all_or_nothing_witness :
  Exists bad_token (split_on ","%char (py "123, 45x ,678")) /\
  allowed_ids_list (py "123, 45x ,678") = [] /\
  allowed_ids_list (py "123, ,678,") = [123; 678].
Proof.
  assert (H : Exists bad_token (split_on ","%char (py "123, 45x ,678"))).
  { apply Exists_cons_tl. apply Exists_cons_hd.
    split; [vm_compute; discriminate | vm_compute; reflexivity]. }
  split; [exact H|]. split.
  - exact (proj1 (proj1 (allowed_ids_all_or_nothing (py "123, 45x ,678")) H)).
  - vm_compute. reflexivity.
Defined.

(** *** Integers written by [str] are read back by [int] *)

Lemma ndigits_fuel_bound (f : nat) (n : Z) :
  0 <= n < 2 ^ (Z.of_nat f + 1) -> n < 10 ^ Z.of_nat (ndigits_fuel f n).
Proof.
  revert n. induction f as [|f IH]; intros n Hn.
  - simpl in *. lia.
  - cbn [ndigits_fuel]. destruct (n <? 10) eqn:E.
    + apply Z.ltb_lt in E. simpl. lia.
    + apply Z.ltb_ge in E.
      rewrite Nat2Z.inj_succ, Z.pow_succ_r by lia.
      assert (Hq : n / 10 < 10 ^ Z.of_nat (ndigits_fuel f (n / 10))).
      { apply IH. split; [apply Z.div_pos; lia|].
        apply Z.div_lt_upper_bound; [lia|].
        replace (Z.of_nat (S f) + 1) with (Z.succ (Z.of_nat f + 1)) in Hn by lia.
        rewrite Z.pow_succ_r in Hn by lia. lia. }
      pose proof (Z.div_mod n 10 ltac:(lia)).
      pose proof (Z.mod_pos_bound n 10 ltac:(lia)). lia.
Qed.

Lemma ndigits_bound (n : Z) : 0 <= n -> n < 10 ^ Z.of_nat (ndigits n).
Proof.
  intros Hn. unfold ndigits. apply ndigits_fuel_bound.
  split; [exact Hn|].
  destruct (Z.eq_dec n 0) as [->|Hne]; [simpl; lia|].
  rewrite Z2Nat.id by apply Z.log2_nonneg.
  replace (Z.log2 n + 1) with (Z.succ (Z.log2 n)) by lia.
  apply Z.log2_spec. lia.
Qed.

Lemma ndigits_fuel_pos (f : nat) (n : Z) : (1 <= ndigits_fuel f n)%nat.
Proof. destruct f; simpl; [lia|]. destruct (n <? 10); lia. Qed.

Lemma ndigits_fuel_le (f : nat) (n : Z) (k : nat) :
  0 <= n < 10 ^ Z.of_nat k -> (1 <= k)%nat -> (ndigits_fuel f n <= k)%nat.
Proof.
  revert n k. induction f as [|f IH]; intros n k Hn Hk; simpl; [exact Hk|].
  destruct (n <? 10) eqn:E; [exact Hk|].
  apply Z.ltb_ge in E.
  destruct k as [|k]; [lia|].
  rewrite Nat2Z.inj_succ, Z.pow_succ_r in Hn by lia.
  destruct k as [|k]; [simpl in Hn; lia|].
  apply le_n_S. apply IH; [|lia].
  split; [apply Z.div_pos; lia | apply Z.div_lt_upper_bound; lia].
Qed.

Lemma int_of_str_digits (neg : bool) (s : str) :
  s <> [] -> digits_only s -> (List.length s <= int_max_str_digits)%nat ->
  int_of_str ((if neg then ["-"%char] else []) ++ s)
  = Some (if neg then - decimal_value 0 s else decimal_value 0 s).
Proof.
  intros Hne Hd Hlen. unfold int_of_str.
  assert (Hnb : no_blank ((if neg then ["-"%char] else []) ++ s)).
  { apply Forall_app. split; [|apply digits_no_blank; exact Hd].
    destruct neg; repeat constructor. }
  rewrite c_strip_no_blank by exact Hnb.
  destruct Hd as [|c r Hc Hs]; [congruence|].
  assert (Hsign : sign_of ((if neg then ["-"%char] else []) ++ c :: r)
                  = (neg, c :: r)).
  { destruct neg; [reflexivity|]. simpl.
    pose proof (proj1 (is_digit_code c) Hc) as Hcode.
    rewrite (chr_eqb_code c "-"%char), (chr_eqb_code c "+"%char)
      by (vm_compute (code "-"%char); vm_compute (code "+"%char); lia).
    reflexivity. }
  rewrite Hsign. unfold digitpart. rewrite Hc.
  rewrite digits_tail_digits by exact Hs.
  replace (int_max_str_digits <? 1 + List.length r)%nat with false
    by (symmetry; apply Nat.ltb_ge; simpl in Hlen; lia).
  unfold decimal_value. cbn [fold_left].
  rewrite Z.mul_0_r, Z.add_0_l. reflexivity.
Qed.

Lemma zero_padded_nonempty (n : Z) : zero_padded (ndigits n) n <> [].
Proof.
  intros E. apply (f_equal (@List.length ascii)) in E.
  rewrite zero_padded_length in E. simpl in E.
  pose proof (ndigits_fuel_pos (Z.to_nat (Z.log2 n)) n). unfold ndigits in E. lia.
Qed.

Lemma int_of_str_of_Z (n : Z) :
  - 10 ^ Z.of_nat int_max_str_digits < n < 10 ^ Z.of_nat int_max_str_digits ->
  int_of_str (str_of_Z n) = Some n.
Proof.
  intros Hn. unfold str_of_Z. destruct (n <? 0) eqn:E.
  - apply Z.ltb_lt in E.
    change ("-"%char :: zero_padded (ndigits (- n)) (- n))
      with ((if true then ["-"%char] else []) ++ zero_padded (ndigits (- n)) (- n)).
    rewrite int_of_str_digits.
    + rewrite zero_padded_value by (split; [lia | apply ndigits_bound; lia]).
      f_equal. lia.
    + apply zero_padded_nonempty.
    + apply zero_padded_digits.
    + rewrite zero_padded_length. apply ndigits_fuel_le; [lia|].
      unfold int_max_str_digits. lia.
  - apply Z.ltb_ge in E.
    change (zero_padded (ndigits n) n)
      with ((if false then ["-"%char] else []) ++ zero_padded (ndigits n) n).
    rewrite int_of_str_digits.
    + rewrite zero_padded_value by (split; [lia | apply ndigits_bound; lia]).
      reflexivity.
    + apply zero_padded_nonempty.
    + apply zero_padded_digits.
    + rewrite zero_padded_length. apply ndigits_fuel_le; [lia|].
      unfold int_max_str_digits. lia.
Qed.

Lemma str_of_Z_text (n : Z) : int_text (str_of_Z n).
Proof.
  unfold str_of_Z, int_text. destruct (n <? 0).
  - split; [discriminate|]. constructor; [left; reflexivity|].
    eapply Forall_impl; [|apply zero_padded_digits]. intros c Hc. right. exact Hc.
  - split; [apply zero_padded_nonempty|].
    eapply Forall_impl; [|apply zero_padded_digits]. intros c Hc. right. exact Hc.
Qed.

Lemma int_text_no_blank (s : str) : int_text s -> no_blank s.
Proof.
  intros [_ H]. eapply Forall_impl; [|exact H].
  intros c [Hc|Hc]; [|apply digit_not_space; exact Hc].
  apply chr_eqb_eq in Hc. subst c. reflexivity.
Qed.

Lemma int_text_no_comma (s : str) :
  int_text s -> Forall (fun c => chr_eqb c ","%char = false) s.
Proof.
  intros [_ H]. eapply Forall_impl; [|exact H].
  intros c [Hc|Hc].
  - apply chr_eqb_eq in Hc. subst c. reflexivity.
  - apply is_digit_code in Hc. apply chr_eqb_code.
    vm_compute (code ","%char). lia.
Qed.

(** *** [split] undoes [join] *)

Lemma split_on_from_app (sep : ascii) (x cur rest : str) :
  Forall (fun c => chr_eqb c sep = false) x ->
  split_on_from sep cur (x ++ rest) = split_on_from sep (rev x ++ cur) rest.
Proof.
  intros H. revert cur. induction H as [|c x Hc _ IH]; intros cur; simpl.
  - reflexivity.
  - rewrite Hc, IH, <- app_assoc. reflexivity.
Qed.

Lemma split_on_join (sep : ascii) (x : str) (l : list str) :
  Forall (Forall (fun c => chr_eqb c sep = false)) (x :: l) ->
  split_on sep (join [sep] (x :: l)) = x :: l.
Proof.
  unfold split_on. revert x. induction l as [|y l IH]; intros x H.
  - cbn [join]. rewrite <- (app_nil_r x) at 1.
    rewrite split_on_from_app by (inversion H; assumption).
    simpl. rewrite app_nil_r, rev_involutive. reflexivity.
  - change (join [sep] (x :: y :: l)) with (x ++ sep :: join [sep] (y :: l)).
    rewrite split_on_from_app by (inversion H; assumption).
    cbn [split_on_from]. rewrite chr_eqb_refl, app_nil_r, rev_involutive.
    f_equal. apply IH. inversion H; assumption.
Qed.

Lemma parse_ids_texts (ids : list Z) :
  Forall (fun n => - 10 ^ Z.of_nat int_max_str_digits < n
                   < 10 ^ Z.of_nat int_max_str_digits) ids ->
  parse_ids (map str_of_Z ids) = Some ids.
Proof.
  induction 1 as [|n ids Hn _ IH]; [reflexivity|].
  cbn [map parse_ids].
  rewrite strip_no_blank by (apply int_text_no_blank, str_of_Z_text).
  destruct (str_of_Z n) as [|c r] eqn:E.
  - exfalso. pose proof (str_of_Z_text n) as [Hne _]. congruence.
  - rewrite <- E, (int_of_str_of_Z n Hn), IH. reflexivity.
Qed.

(** X11. Writing a list of user ids as their decimal texts joined by
    commas and giving it as TELEGRAM_ALLOWED_IDS gives back exactly these
    ids, in order, for ids of at most 4300 digits (the limit of Python's
    [int]). *)
Theorem allowed_ids_round_trip (ids : list Z) :
  Forall (fun n => - 10 ^ Z.of_nat int_max_str_digits < n
                   < 10 ^ Z.of_nat int_max_str_digits) ids ->
  allowed_ids_list (join [","%char] (map str_of_Z ids)) = ids.
Proof.
  intros H. destruct ids as [|n ids]; [reflexivity|].
  unfold allowed_ids_list.
  assert (Hsplit : split_on ","%char (join [","%char] (map str_of_Z (n :: ids)))
                   = map str_of_Z (n :: ids)).
  { cbn [map]. apply split_on_join.
    change (str_of_Z n :: map str_of_Z ids) with (map str_of_Z (n :: ids)).
    apply Forall_map. apply Forall_forall. intros m _.
    apply int_text_no_comma, str_of_Z_text. }
  rewrite Hsplit, (parse_ids_texts _ H).
  destruct (join [","%char] (map str_of_Z (n :: ids))) as [|c r] eqn:E;
    [|reflexivity].
  exfalso. cbn [map join] in E.
  pose proof (str_of_Z_text n) as [Hne _].
  destruct (str_of_Z n) as [|c r]; [congruence|].
  destruct (map str_of_Z ids); discriminate.
Qed.

Lemma allowed_ids_round_trip_witness :
  join [","%char] (map str_of_Z [5551234; -1001234567890; 0])
  = py "5551234,-1001234567890,0" /\
  allowed_ids_list (py "5551234,-1001234567890,0")
  = [5551234; -1001234567890; 0].
Proof.
  assert (E : join [","%char] (map str_of_Z [5551234; -1001234567890; 0])
              = py "5551234,-1001234567890,0") by (vm_compute; reflexivity).
  split; [exact E|]. rewrite <- E.
  apply (allowed_ids_round_trip [5551234; -1001234567890; 0]).
  assert (B : 10 ^ 18 <= 10 ^ Z.of_nat int_max_str_digits).
  { apply Z.pow_le_mono_r; unfold int_max_str_digits; lia. }
  repeat constructor; lia.
Defined.

(* ================================================================== *)
(** ** Sorting the rows of the Flex report *)
(* ================================================================== *)

Lemma code_inj (a b : ascii) : code a = code b -> a = b.
Proof.
  unfold code. intros H. apply Nat2Z.inj in H.
  rewrite <- (ascii_nat_embedding a), <- (ascii_nat_embedding b), H. reflexivity.
Qed.

Ltac ltb_props :=
  repeat match goal with
         | H : (_ <? _) = true |- _ => apply Z.ltb_lt in H
         | H : (_ <? _) = false |- _ => apply Z.ltb_ge in H
         end.

Lemma str_ltb_irrefl (a : str) : str_ltb a a = false.
Proof. induction a as [|x a IH]; simpl; [reflexivity|]. rewrite Z.ltb_irrefl. exact IH. Qed.

Lemma str_ltb_trans (a b c : str) :
  str_ltb a b = true -> str_ltb b c = true -> str_ltb a c = true.
Proof.
  revert b c. induction a as [|x a IH]; intros [|y b] [|z c]; simpl;
    try congruence.
  destruct (code x <? code y) eqn:E1, (code y <? code x) eqn:E2,
           (code y <? code z) eqn:E3, (code z <? code y) eqn:E4,
           (code x <? code z) eqn:E5, (code z <? code x) eqn:E6;
    ltb_props; try lia; try congruence.
  apply IH.
Qed.

Lemma str_ltb_total (a b : str) :
  str_ltb a b = false -> str_ltb b a = false -> a = b.
Proof.
  revert b. induction a as [|x a IH]; intros [|y b]; simpl; try congruence.
  destruct (code x <? code y) eqn:E1, (code y <? code x) eqn:E2;
    try congruence.
  ltb_props. intros H1 H2.
  rewrite (code_inj x y) by lia. f_equal. apply IH; assumption.
Qed.

Lemma str_ltb_asym (a b : str) : str_ltb a b = true -> str_ltb b a = false.
Proof.
  intros H. destruct (str_ltb b a) eqn:E; [|reflexivity].
  rewrite <- (str_ltb_irrefl a). symmetry. eapply str_ltb_trans; eassumption.
Qed.

Lemma str_leb_trans (a b c : str) :
  str_ltb b a = false -> str_ltb c b = false -> str_ltb c a = false.
Proof.
  intros Hab Hbc. destruct (str_ltb c a) eqn:Hca; [|reflexivity].
  destruct (str_ltb a b) eqn:Hab'.
  - rewrite (str_ltb_trans c a b Hca Hab') in Hbc. discriminate.
  - rewrite (str_ltb_total a b Hab' Hab) in Hca. congruence.
Qed.

Lemma tuple_ltb_irrefl (a : str * str) : tuple_ltb a a = false.
Proof. unfold tuple_ltb. rewrite str_eqb_refl. apply str_ltb_irrefl. Qed.

Lemma tuple_ltb_asym (a b : str * str) :
  tuple_ltb a b = true -> tuple_ltb b a = false.
Proof.
  unfold tuple_ltb. destruct (str_eqb (fst a) (fst b)) eqn:E.
  - apply str_eqb_eq in E. rewrite E, str_eqb_refl. apply str_ltb_asym.
  - apply str_eqb_neq in E.
    replace (str_eqb (fst b) (fst a)) with false
      by (symmetry; apply str_eqb_neq; congruence).
    apply str_ltb_asym.
Qed.

Lemma tuple_leb_trans (a b c : str * str) :
  tuple_ltb b a = false -> tuple_ltb c b = false -> tuple_ltb c a = false.
Proof.
  destruct a as [a1 a2], b as [b1 b2], c as [c1 c2]. unfold tuple_ltb. simpl.
  destruct (str_eqb b1 a1) eqn:Eba; [apply str_eqb_eq in Eba | apply str_eqb_neq in Eba];
  (destruct (str_eqb c1 b1) eqn:Ecb; [apply str_eqb_eq in Ecb | apply str_eqb_neq in Ecb]);
  intros H1 H2.
  - subst. rewrite str_eqb_refl. eapply str_leb_trans; eassumption.
  - subst. replace (str_eqb c1 a1) with false
      by (symmetry; apply str_eqb_neq; assumption). exact H2.
  - subst. replace (str_eqb b1 a1) with false
      by (symmetry; apply str_eqb_neq; assumption). exact H1.
  - destruct (str_eqb c1 a1) eqn:Eca.
    + apply str_eqb_eq in Eca. subst c1. exfalso. apply Eba.
      apply str_ltb_total; assumption.
    + eapply str_leb_trans; eassumption.
Qed.

Lemma StronglySorted_weaken {A} (R S : A -> A -> Prop) (l : list A) :
  (forall a b, R a b -> S a b) -> StronglySorted R l -> StronglySorted S l.
Proof.
  intros HRS. induction 1 as [|a l _ IH Hall]; constructor; [exact IH|].
  eapply Forall_impl; [|exact Hall]. intros b. apply HRS.
Qed.

Lemma sortchildrenby_order (parent : list Element) (attr_1 : str)
    (attr_2 : option str) :
  let out := sortchildrenby parent attr_1 attr_2 in
  Permutation parent out /\
  StronglySorted (not_after attr_1 attr_2) out /\
  (forall r, filter (same_keys attr_1 attr_2 r) out
             = filter (same_keys attr_1 attr_2 r) parent) /\
  (forall child attr, el_get child attr = None \/ el_get child attr = Some [] ->
                      sort_key attr child = py " ").
Proof.
  intros out. unfold out, sortchildrenby.
  split; [|split; [|split]].
  - destruct attr_2; apply sorted_by_perm.
  - destruct attr_2 as [attr_2|].
    + set (lt := fun a b => tuple_ltb (sort_key attr_1 a, sort_key attr_2 a)
                                      (sort_key attr_1 b, sort_key attr_2 b)).
      apply (StronglySorted_weaken (in_order lt)).
      * intros a b Hab. unfold in_order, lt, tuple_ltb in Hab. simpl in Hab.
        unfold not_after.
        destruct (str_eqb (sort_key attr_1 b) (sort_key attr_1 a)) eqn:E.
        -- apply str_eqb_eq in E. right. split; [congruence | exact Hab].
        -- apply str_eqb_neq in E. left.
           destruct (str_ltb (sort_key attr_1 a) (sort_key attr_1 b)) eqn:E';
             [reflexivity|].
           exfalso. apply E. apply str_ltb_total; assumption.
      * apply Sorted_StronglySorted.
        -- intros a b c Hab Hbc. unfold in_order, lt in *.
           eapply tuple_leb_trans; eassumption.
        -- apply sorted_by_sorted. intros a b. apply tuple_ltb_asym.
    + set (lt := fun a b => str_ltb (sort_key attr_1 a) (sort_key attr_1 b)).
      apply (StronglySorted_weaken (in_order lt)).
      * intros a b Hab. unfold in_order, lt in Hab. unfold not_after.
        destruct (str_ltb (sort_key attr_1 a) (sort_key attr_1 b)) eqn:E';
          [left; reflexivity|].
        right. split; [|exact I]. apply str_ltb_total; assumption.
      * apply Sorted_StronglySorted.
        -- intros a b c Hab Hbc. unfold in_order, lt in *.
           eapply str_leb_trans; eassumption.
        -- apply sorted_by_sorted. intros a b. apply str_ltb_asym.
  - intros r. destruct attr_2 as [attr_2|]; apply sorted_by_stable;
      intros a b Ha Hb; unfold same_keys in Ha, Hb;
      apply andb_true_iff in Ha; apply andb_true_iff in Hb;
      destruct Ha as [Ha1 Ha2], Hb as [Hb1 Hb2];
      apply str_eqb_eq in Ha1; apply str_eqb_eq in Hb1.
    + apply str_eqb_eq in Ha2. apply str_eqb_eq in Hb2.
      rewrite Ha1, Ha2, Hb1, Hb2. apply tuple_ltb_irrefl.
    + rewrite Ha1, Hb1. apply str_ltb_irrefl.
  - intros child attr [H|H]; unfold sort_key; rewrite H; reflexivity.
Qed.

Lemma el_get_attribute (child : Element) (attr : str) :
  (forall v, NoDup (map fst (el_attrib child)) ->
             In (attr, v) (el_attrib child) -> el_get child attr = Some v) /\
  ((forall v, ~ In (attr, v) (el_attrib child)) -> el_get child attr = None).
Proof.
  unfold el_get. induction (el_attrib child) as [|[k w] l [IH1 IH2]]; simpl.
  - split; [intros v _ [] | reflexivity].
  - split.
    + intros v Hnd [E|Hin].
      * injection E as -> ->. rewrite str_eqb_refl. reflexivity.
      * destruct (str_eqb k attr) eqn:E.
        -- apply str_eqb_eq in E. subst k. exfalso.
           inversion Hnd as [|? ? Hnotin _]; subst. apply Hnotin.
           apply (in_map fst) in Hin. exact Hin.
        -- apply IH1; [inversion Hnd; assumption | exact Hin].
    + intros Hnone. destruct (str_eqb k attr) eqn:E.
      * apply str_eqb_eq in E. subst k. exfalso. apply (Hnone w). left. reflexivity.
      * apply IH2. intros v Hin. apply (Hnone v). right. exact Hin.
Qed.

(** X12. [sortchildrenby] rearranges the rows without losing or adding
    one; afterwards every row stands before all rows with a greater first
    key, rows with the same first key are in ascending order of the second
    key (when one is given), and rows with the same keys keep the order
    they had.  The key of a row is the value of its attribute of that
    name, or one space when the attribute is missing or empty.  Five trades
    sorted by tradeDate and symbol, and by tradeDate alone, come out with
    the two undated ones first, in their order. *)
Theorem sortchildrenby_sorts (parent : list Element) (attr_1 : str)
    (attr_2 : option str) :
  let out := sortchildrenby parent attr_1 attr_2 in
  Permutation parent out /\
  StronglySorted (not_after attr_1 attr_2) out /\
  (forall r, filter (same_keys attr_1 attr_2 r) out
             = filter (same_keys attr_1 attr_2 r) parent) /\
  (forall child attr, el_get child attr = None \/ el_get child attr = Some [] ->
                      sort_key attr child = py " ") /\
  (forall child attr v, el_get child attr = Some v -> v <> [] ->
                        sort_key attr child = v) /\
  (forall child attr v, NoDup (map fst (el_attrib child)) ->
                        In (attr, v) (el_attrib child) ->
                        el_get child attr = Some v) /\
  (forall child attr, (forall v, ~ In (attr, v) (el_attrib child)) ->
                      el_get child attr = None) /\
  (let trade := fun date symbol =>
                  mkElement (py "Trade")
                            [(py "tradeDate", date); (py "symbol", symbol)] in
   let undated := mkElement (py "Trade") [(py "symbol", py "A")] in
   let rows := [trade (py "20260103") (py "B"); undated;
                trade (py "20260102") (py "Z"); trade (py "20260102") (py "C");
                trade [] (py "A")] in
   sortchildrenby rows (py "tradeDate") (Some (py "symbol"))
   = [undated; trade [] (py "A");
      trade (py "20260102") (py "C"); trade (py "20260102") (py "Z");
      trade (py "20260103") (py "B")] /\
   sortchildrenby rows (py "tradeDate") None
   = [undated; trade [] (py "A");
      trade (py "20260102") (py "Z"); trade (py "20260102") (py "C");
      trade (py "20260103") (py "B")]).
Proof.
  intros out.
  destruct (sortchildrenby_order parent attr_1 attr_2) as (H1 & H2 & H3 & H4).
  repeat (split; [assumption|]).
  split; [|split; [|split]].
  - intros child attr v Hv Hne. unfold sort_key. rewrite Hv.
    destruct v; [congruence | reflexivity].
  - intros child attr v. apply (proj1 (el_get_attribute child attr)).
  - intros child attr. apply (proj2 (el_get_attribute child attr)).
  - split; vm_compute; reflexivity.
Qed.

(* ================================================================== *)
(** ** The symbol of an option button *)
(* ================================================================== *)

Lemma split_on_from_hd (sep : ascii) (s cur : str) :
  exists x rest tl,
    s = x ++ rest /\
    Forall (fun c => chr_eqb c sep = false) x /\
    (rest = [] \/ exists r, rest = sep :: r) /\
    split_on_from sep cur s = (rev cur ++ x) :: tl.
Proof.
  revert cur. induction s as [|c s IH]; intros cur.
  - exists [], [], []. repeat split; [constructor | left; reflexivity |].
    simpl. rewrite app_nil_r. reflexivity.
  - simpl. destruct (chr_eqb c sep) eqn:E.
    + apply chr_eqb_eq in E. subst c.
      exists [], (sep :: s), (split_on_from sep [] s).
      repeat split; [constructor | right; eexists; reflexivity |].
      rewrite app_nil_r. reflexivity.
    + destruct (IH (c :: cur)) as (x & rest & tl & Hs & Hx & Hrest & Hsplit).
      exists (c :: x), rest, tl. repeat split.
      * simpl. rewrite Hs. reflexivity.
      * constructor; assumption.
      * exact Hrest.
      * rewrite Hsplit. cbn [rev]. rewrite <- app_assoc. reflexivity.
Qed.

Lemma opt_prefix_split (s : str) :
  split_on ":"%char (opt_callback_data s)
  = py "opt_details" :: split_on ":"%char (strip s).
Proof. reflexivity. Qed.

(** X13. The symbol that the details handler reads back from the callback
    data of an option button is the stripped symbol of the position cut at
    its first colon: the whole stripped symbol when it holds no colon.
    Reading it never fails. *)
Theorem opt_details_symbol_cut (symbol : str) :
  exists s rest,
    opt_details_symbol (opt_callback_data symbol) = Return s /\
    strip symbol = s ++ rest /\
    contains ":"%char s = false /\
    (rest = [] \/ exists r, rest = ":"%char :: r) /\
    (contains ":"%char (strip symbol) = false -> s = strip symbol).
Proof.
  destruct (split_on_from_hd ":"%char (strip symbol) [])
    as (x & rest & tl & Hs & Hx & Hrest & Hsplit).
  exists x, rest.
  assert (Hnc : contains ":"%char x = false).
  { destruct (contains ":"%char x) eqn:E; [|reflexivity].
    apply contains_In in E. rewrite Forall_forall in Hx.
    specialize (Hx _ E). discriminate Hx. }
  split; [|split; [|split; [|split]]].
  - unfold opt_details_symbol. rewrite opt_prefix_split.
    unfold split_on. rewrite Hsplit. reflexivity.
  - exact Hs.
  - exact Hnc.
  - exact Hrest.
  - intros Hno. destruct Hrest as [-> | [r ->]].
    + rewrite app_nil_r in Hs. congruence.
    + exfalso. rewrite Hs in Hno.
      assert (Hin : contains ":"%char (x ++ ":"%char :: r) = true).
      { apply contains_In. apply in_or_app. right. left. reflexivity. }
      congruence.
Qed.

Lemma strip_ends (c d : ascii) (m : str) :
  isspace c = false -> isspace d = false ->
  strip (c :: m ++ [d]) = c :: m ++ [d].
Proof.
  intros Hc Hd. unfold strip, rstrip. simpl lstrip. rewrite Hc.
  replace (rev (c :: m ++ [d])) with (d :: rev m ++ [c])
    by (simpl; rewrite rev_app_distr; reflexivity).
  simpl lstrip. rewrite Hd.
  simpl. rewrite rev_app_distr, rev_involutive. reflexivity.
Qed.

Lemma remove_spaces_app (a b : str) :
  remove_spaces (a ++ b) = remove_spaces a ++ remove_spaces b.
Proof. apply filter_app. Qed.

Lemma remove_spaces_padding (k : nat) : remove_spaces (repeat " "%char k) = [].
Proof. induction k as [|k IH]; [reflexivity | exact IH]. Qed.

Lemma zero_padded_of_str (n : Z) :
  0 <= n < 10 ^ 8 -> of_str (zero_padded 8 n) = Some (of_Z n).
Proof.
  intros Hn. rewrite of_str_digits.
  - rewrite zero_padded_value by (simpl; lia). reflexivity.
  - intros E. apply (f_equal (@List.length ascii)) in E.
    rewrite zero_padded_length in E. discriminate E.
  - apply zero_padded_digits.
Qed.

Lemma padded_osi_not_european (root : str) (k : nat) (yymmdd : str) (r : ascii)
    (n : Z) :
  root <> [] -> no_blank root -> digits_only yymmdd -> len yymmdd = 6 ->
  k = 0%nat \/ (root <> py "P" /\ root <> py "C") ->
  is_european_format (padded_osi root k yymmdd r n) = false.
Proof.
  intros Hne Hnb Hd Hlen Hk. unfold is_european_format, padded_osi, osi_encode.
  destruct root as [|c0 root]; [congruence|].
  destruct root as [|c1 root].
  - destruct Hk as [-> | [HP HC]].
    + destruct Hd as [|d0 date Hd0 _]; [discriminate Hlen|]. simpl.
      replace (chr_eqb d0 " "%char) with false; [rewrite !andb_false_r; reflexivity|].
      symmetry. apply is_digit_code in Hd0. apply chr_eqb_code.
      vm_compute (code " "%char). lia.
    + destruct k; simpl;
        (replace (chr_eqb c0 "P"%char) with false
           by (symmetry; destruct (chr_eqb c0 "P"%char) eqn:E; [|reflexivity];
               apply chr_eqb_eq in E; subst c0; exfalso; apply HP; reflexivity));
        (replace (chr_eqb c0 "C"%char) with false
           by (symmetry; destruct (chr_eqb c0 "C"%char) eqn:E; [|reflexivity];
               apply chr_eqb_eq in E; subst c0; exfalso; apply HC; reflexivity));
        simpl; try rewrite andb_false_r; try reflexivity;
        destruct yymmdd as [|? [|? ?]]; simpl; rewrite ?andb_false_r; reflexivity.
  - apply Forall_inv_tail in Hnb. apply Forall_inv in Hnb. simpl.
    replace (chr_eqb c1 " "%char) with false; [rewrite !andb_false_r; reflexivity|].
    symmetry. destruct (chr_eqb c1 " "%char) eqn:E; [|reflexivity].
    apply chr_eqb_eq in E. subst c1. discriminate Hnb.
Qed.

Lemma padded_osi_stripped (root : str) (k : nat) (yymmdd : str) (r : ascii)
    (n : Z) :
  root <> [] -> no_blank root ->
  strip (padded_osi root k yymmdd r n) = padded_osi root k yymmdd r n.
Proof.
  intros Hne Hnb. unfold padded_osi, osi_encode.
  destruct root as [|c0 root]; [congruence|].
  change (zero_padded 8 n) with (zero_padded 7 (n / 10) ++ [digit_chr (n mod 10)]).
  replace (((c0 :: root) ++ repeat " "%char k) ++ yymmdd ++
           r :: zero_padded 7 (n / 10) ++ [digit_chr (n mod 10)])
    with (c0 :: (root ++ repeat " "%char k ++ yymmdd ++
                 r :: zero_padded 7 (n / 10)) ++ [digit_chr (n mod 10)])
    by (simpl; repeat rewrite <- app_assoc; simpl; reflexivity).
  apply strip_ends.
  - apply Forall_inv in Hnb. exact Hnb.
  - apply digit_not_space, digit_chr_is_digit.
    pose proof (Z.mod_pos_bound n 10). lia.
Qed.

Lemma padded_osi_no_colon (root : str) (k : nat) (yymmdd : str) (r : ascii)
    (n : Z) :
  contains ":"%char root = false -> digits_only yymmdd ->
  r = "P"%char \/ r = "C"%char ->
  Forall (fun c => chr_eqb c ":"%char = false) (padded_osi root k yymmdd r n).
Proof.
  intros Hroot Hd Hr. unfold padded_osi, osi_encode.
  assert (Hdig : forall s, digits_only s ->
                           Forall (fun c => chr_eqb c ":"%char = false) s).
  { intros s Hs. eapply Forall_impl; [|exact Hs]. intros c Hc.
    apply is_digit_code in Hc. apply chr_eqb_code.
    vm_compute (code ":"%char). lia. }
  repeat (apply Forall_app; split).
  - apply Forall_forall. intros c Hc.
    destruct (chr_eqb c ":"%char) eqn:E; [|reflexivity].
    apply chr_eqb_eq in E. subst c.
    apply contains_In in Hc. congruence.
  - apply Forall_forall. intros c Hc. apply repeat_spec in Hc. subst c. reflexivity.
  - apply Hdig. exact Hd.
  - constructor; [destruct Hr as [-> | ->]; reflexivity|].
    apply Hdig, zero_padded_digits.
Qed.

(** X14. For a US option position the button of /options carries the
    position's local symbol (root, padding spaces, YYMMDD, right, strike in
    thousandths on eight digits), the details handler reads the same
    symbol back, and the risk endpoint decodes it into the root, the
    right, the expiry with its century and the strike: for every root
    without blanks and colons, except the one-letter roots P and C once
    they are padded. *)
Theorem option_button_decodes (root : str) (padding : nat) (yymmdd : str)
    (r : ascii) (thousandths : Z) :
  root <> [] -> no_blank root -> contains ":"%char root = false ->
  padding = 0%nat \/ (root <> py "P" /\ root <> py "C") ->
  digits_only yymmdd -> len yymmdd = 6 ->
  r = "P"%char \/ r = "C"%char ->
  0 <= thousandths < 10 ^ 8 ->
  let local_symbol := padded_osi root padding yymmdd r thousandths in
  opt_details_symbol (opt_callback_data local_symbol) = Return local_symbol /\
  decode (strip local_symbol)
  = Return (mkDecoded [r] root (py "20" ++ yymmdd)
              (fdiv (of_Z thousandths) (of_Z 1000))
              (fst (fst (parse_symbol root)))
              (snd (fst (parse_symbol root)))
              (snd (parse_symbol root))).
Proof.
  intros Hne Hnb Hcolon Hpad Hd Hlen Hr Hn local_symbol.
  assert (Hstrip : strip local_symbol = local_symbol)
    by (apply padded_osi_stripped; assumption).
  split.
  - unfold opt_details_symbol. rewrite opt_prefix_split, Hstrip.
    pose proof (split_on_from_hd ":"%char local_symbol [])
      as (x & rest & tl & Hs & Hx & Hrest & Hsplit).
    unfold split_on. rewrite Hsplit. simpl.
    destruct Hrest as [-> | [r' ->]].
    + rewrite app_nil_r in Hs. congruence.
    + exfalso.
      pose proof (padded_osi_no_colon root padding yymmdd r thousandths
                    Hcolon Hd Hr) as Hall.
      fold local_symbol in Hall. rewrite Hs in Hall.
      apply Forall_app in Hall. destruct Hall as [_ Hall].
      apply Forall_inv in Hall. discriminate Hall.
  - rewrite Hstrip. unfold decode.
    unfold local_symbol at 1.
    rewrite padded_osi_not_european by assumption.
    rewrite (decode_osi_extracts _ root yymmdd (zero_padded 8 thousandths) r
               (of_Z thousandths)).
    + rewrite strip_no_blank by assumption. reflexivity.
    + unfold local_symbol, padded_osi, osi_encode.
      rewrite !remove_spaces_app, remove_spaces_padding, app_nil_r.
      rewrite (remove_spaces_no_blank root) by assumption.
      rewrite (remove_spaces_no_blank yymmdd) by (apply digits_no_blank; assumption).
      change (r :: zero_padded 8 thousandths)
        with ([r] ++ zero_padded 8 thousandths).
      rewrite remove_spaces_app.
      rewrite (remove_spaces_no_blank (zero_padded 8 thousandths))
        by (apply digits_no_blank, zero_padded_digits).
      destruct Hr as [-> | ->]; reflexivity.
    + exact Hlen.
    + unfold len. rewrite zero_padded_length. reflexivity.
    + apply zero_padded_of_str. exact Hn.
Qed.

Lemma option_button_decodes_witness :
  padded_osi (py "ASTS") 2 (py "260109") "P"%char 65000
  = py "ASTS  260109P00065000" /\
  opt_details_symbol (opt_callback_data (py "ASTS  260109P00065000"))
  = Return (py "ASTS  260109P00065000") /\
  decode (strip (py "ASTS  260109P00065000"))
  = Return (mkDecoded (py "P") (py "ASTS") (py "20260109")
              (fdiv (of_Z 65000) (of_Z 1000)) (py "ASTS") (py "SMART") (py "USD")).
Proof.
  assert (E : padded_osi (py "ASTS") 2 (py "260109") "P"%char 65000
              = py "ASTS  260109P00065000") by (vm_compute; reflexivity).
  split; [exact E|]. rewrite <- E.
  apply (option_button_decodes (py "ASTS") 2 (py "260109") "P"%char 65000).
  - discriminate.
  - repeat constructor.
  - reflexivity.
  - right. split; discriminate.
  - repeat constructor.
  - reflexivity.
  - left. reflexivity.
  - lia.
Defined.

(* ================================================================== *)
(** ** Notifying the admins *)
(* ================================================================== *)

Lemma notify_loop_all (send : nat -> Z -> answer unit) (text parse_mode : str)
    (ids : list Z) (i : nat) :
  (forall j chat_id, send j chat_id <> Cancelled) ->
  snd (notify_loop send text parse_mode i ids) = Return tt /\
  messages (fst (notify_loop send text parse_mode i ids))
  = map (fun chat_id => (chat_id, text, parse_mode)) ids /\
  errors_logged (fst (notify_loop send text parse_mode i ids))
  = failed_sends send i ids.
Proof.
  intros Hsend. revert i. induction ids as [|chat_id rest IH]; intros i.
  - repeat split.
  - cbn [notify_loop failed_sends].
    destruct (IH (S i)) as (Hr & Hm & He).
    destruct (notify_loop send text parse_mode (S i) rest) as [tr r].
    simpl in Hr, Hm, He.
    destruct (send i chat_id) as [e| |[]] eqn:E.
    + simpl. rewrite Hm. unfold errors_logged in *. simpl. rewrite He.
      repeat split. exact Hr.
    + exfalso. exact (Hsend _ _ E).
    + simpl. rewrite Hm. unfold errors_logged in *. simpl. rewrite He.
      repeat split. exact Hr.
Qed.

(** X15. Unless a send is cancelled, [notify_admins] sends the text once
    to every id of the allowed list, in the order of the list, whatever
    sends fail: a send that raises is logged and the loop goes on, and
    the function itself raises nothing.  When TELEGRAM_ALLOWED_IDS holds an
    entry that is not an integer, nothing is sent and nothing is logged. *)
Theorem notify_admins_reaches_all (TELEGRAM_ALLOWED_IDS : str)
    (send : nat -> Z -> answer unit) (text parse_mode : str) :
  (forall j chat_id, send j chat_id <> Cancelled) ->
  let run := notify_admins TELEGRAM_ALLOWED_IDS send text parse_mode in
  snd run = Return tt /\
  messages (fst run)
  = map (fun chat_id => (chat_id, text, parse_mode))
        (allowed_ids_list TELEGRAM_ALLOWED_IDS) /\
  errors_logged (fst run)
  = failed_sends send 0 (allowed_ids_list TELEGRAM_ALLOWED_IDS) /\
  (Exists bad_token (split_on ","%char TELEGRAM_ALLOWED_IDS) -> fst run = []).
Proof.
  intros Hsend run. unfold run, notify_admins.
  destruct (notify_loop_all send text parse_mode
              (allowed_ids_list TELEGRAM_ALLOWED_IDS) 0 Hsend) as (Hr & Hm & He).
  split; [exact Hr|]. split; [exact Hm|]. split; [exact He|].
  intros Hbad.
  assert (E : allowed_ids_list TELEGRAM_ALLOWED_IDS = []).
  { unfold allowed_ids_list. destruct TELEGRAM_ALLOWED_IDS; [reflexivity|].
    rewrite (parse_ids_bad _ Hbad). reflexivity. }
  rewrite E. reflexivity.
Qed.

Lemma notify_admins_reaches_all_witness :
  let send := fun (j : nat) (_ : Z) =>
                match j with
                | O => Raises (py "Forbidden: bot was blocked by the user")
                | _ => Gives tt
                end in
  let run := notify_admins (py "11, 22") send (py "hello") (py "Markdown") in
  snd run = Return tt /\
  messages (fst run)
  = [(11, py "hello", py "Markdown"); (22, py "hello", py "Markdown")] /\
  errors_logged (fst run) = 1%nat.
Proof.
  intros send run.
  assert (Hsend : forall j chat_id, send j chat_id <> Cancelled)
    by (intros [|j] chat_id; discriminate).
  pose proof (notify_admins_reaches_all (py "11, 22") send (py "hello")
                (py "Markdown") Hsend) as (Hr & Hm & He & _).
  split; [exact Hr|]. split; [exact Hm|]. exact He.
Defined.

(* ================================================================== *)
(** ** The expirations of a chain *)
(* ================================================================== *)

Lemma dict_get_append (d : month_dict) (k v k' : str) :
  dict_get (dict_append d k v) k'
  = if str_eqb k k'
    then Some (match dict_get d k with Some vs => vs | None => [] end ++ [v])
    else dict_get d k'.
Proof.
  unfold dict_get. induction d as [|[k0 vs] d IH]; simpl.
  - destruct (str_eqb k k'); reflexivity.
  - destruct (str_eqb k0 k) eqn:E0.
    + apply str_eqb_eq in E0. subst k0. simpl.
      destruct (str_eqb k k'); reflexivity.
    + simpl. destruct (str_eqb k0 k') eqn:E1.
      * apply str_eqb_eq in E1. subst k0.
        apply str_eqb_neq in E0.
        replace (str_eqb k k') with false
          by (symmetry; apply str_eqb_neq; congruence).
        reflexivity.
      * exact IH.
Qed.

Lemma dict_append_keys (d : month_dict) (k v : str) :
  map fst (dict_append d k v)
  = if existsb (fun k' => str_eqb k' k) (map fst d) then map fst d
    else map fst d ++ [k].
Proof.
  induction d as [|[k0 vs] d IH]; simpl; [reflexivity|].
  destruct (str_eqb k0 k); simpl; [reflexivity|].
  rewrite IH. destruct (existsb _ (map fst d)); reflexivity.
Qed.

Lemma dict_get_keys (d : month_dict) (k : str) :
  In k (map fst d) <-> dict_get d k <> None.
Proof.
  unfold dict_get. induction d as [|[k0 vs] d IH]; simpl.
  - split; [intros [] | congruence].
  - destruct (str_eqb k0 k) eqn:E.
    + apply str_eqb_eq in E. split; [discriminate | left; exact E].
    + apply str_eqb_neq in E. rewrite <- IH. split; [intros [H|H] | intros H].
      * contradiction.
      * exact H.
      * right. exact H.
Qed.

Lemma fold_dict_append (l : list str) (d : month_dict) :
  NoDup (map fst d) ->
  let d' := fold_left (fun d exp => dict_append d (month_key exp) (day_of exp)) l d in
  NoDup (map fst d') /\
  (forall k, In k (map fst d') <-> In k (map fst d) \/ In k (map month_key l)) /\
  (forall k, In k (map fst d') ->
             dict_get d' k
             = Some (match dict_get d k with Some vs => vs | None => [] end
                     ++ days_in k l)).
Proof.
  revert d. induction l as [|e l IH]; intros d Hnd; cbn [fold_left].
  - split; [exact Hnd|]. split.
    + intros k. simpl. tauto.
    + intros k Hk. unfold days_in. simpl. rewrite app_nil_r.
      apply dict_get_keys in Hk. destruct (dict_get d k); congruence.
  - assert (Hkeys := dict_append_keys d (month_key e) (day_of e)).
    assert (Hnd' : NoDup (map fst (dict_append d (month_key e) (day_of e)))).
    { rewrite Hkeys.
      destruct (existsb (fun k' => str_eqb k' (month_key e)) (map fst d)) eqn:E;
        [exact Hnd|].
      apply NoDup_app; [exact Hnd | repeat constructor; intros [] |].
      intros k Hk [Heq|[]].
      assert (Hex : existsb (fun k' => str_eqb k' (month_key e)) (map fst d) = true).
      { apply existsb_exists. exists k. split; [exact Hk|].
        rewrite Heq. apply str_eqb_refl. }
      congruence. }
    destruct (IH _ Hnd') as (H1 & H2 & H3).
    split; [exact H1|]. split.
    + intros k. rewrite H2, Hkeys. simpl.
      destruct (existsb (fun k' => str_eqb k' (month_key e)) (map fst d)) eqn:E.
      * apply existsb_exists in E. destruct E as (k0 & Hk0 & E).
        apply str_eqb_eq in E. subst k0. split.
        -- tauto.
        -- intros [H|[<-|H]]; tauto.
      * rewrite in_app_iff. simpl. tauto.
    + intros k Hk. rewrite (H3 k Hk), dict_get_append.
      unfold days_in. cbn [filter].
      destruct (str_eqb (month_key e) k) eqn:E.
      * apply str_eqb_eq in E. subst k. cbn [map].
        rewrite <- app_assoc. reflexivity.
      * reflexivity.
Qed.

Lemma month_lines_spec (d : month_dict) (l keys : list str) :
  (forall k, In k keys -> dict_get d k = Some (days_in k l)) ->
  month_lines d keys
  = Some (map (fun k => month_line k (firstn 8 (days_in k l))) keys).
Proof.
  induction keys as [|k keys IH]; intros H; [reflexivity|].
  cbn [month_lines map]. rewrite (H k) by (left; reflexivity).
  rewrite IH by (intros k' Hk'; apply H; right; exact Hk').
  reflexivity.
Qed.

Lemma sorted_strict (l : list str) :
  NoDup l -> Sorted (in_order str_ltb) l ->
  StronglySorted (fun a b => str_ltb a b = true) l.
Proof.
  intros Hnd Hs.
  assert (Hss : StronglySorted (in_order str_ltb) l).
  { apply Sorted_StronglySorted; [|exact Hs].
    intros a b c Hab Hbc. unfold in_order in *.
    eapply str_leb_trans; eassumption. }
  clear Hs. induction Hss as [|a l _ IH Hall]; constructor.
  - apply IH. inversion Hnd; assumption.
  - apply Forall_forall. intros b Hb.
    rewrite Forall_forall in Hall. specialize (Hall b Hb). unfold in_order in Hall.
    destruct (str_ltb a b) eqn:E; [reflexivity|].
    exfalso. inversion Hnd as [|? ? Hnotin _]; subst.
    apply Hnotin. rewrite (str_ltb_total a b E Hall). exact Hb.
Qed.

Lemma expiration_lines_grouped (expirations : list str) :
  let recent := firstn 24 expirations in
  let months := sorted_by str_ltb (map fst (exp_by_month expirations)) in
  NoDup months /\
  (forall k, In k months <-> In k (map month_key recent)) /\
  StronglySorted (fun a b => str_ltb a b = true) months /\
  expiration_lines expirations
  = Some (map (fun k => month_line k (firstn 8 (days_in k recent)))
              (firstn 6 months)
          ++ if (6 <? List.length months)%nat
             then [more_months (Z.of_nat (List.length months) - 6)]
             else []).
Proof.
  intros recent months.
  destruct (fold_dict_append recent [] (NoDup_nil _)) as (Hnd & Hin & Hget).
  fold (exp_by_month expirations) in Hnd, Hin, Hget.
  pose proof (sorted_by_perm str_ltb (map fst (exp_by_month expirations))) as Hperm.
  fold months in Hperm.
  assert (Hnd' : NoDup months) by (eapply Permutation_NoDup; eassumption).
  split; [exact Hnd'|]. split; [|split].
  - intros k. split.
    + intros H.
      assert (H' : In k (map fst (exp_by_month expirations)))
        by (eapply Permutation_in; [apply Permutation_sym|]; eassumption).
      apply Hin in H'. destruct H' as [[]|H']. exact H'.
    + intros H. eapply Permutation_in; [exact Hperm|].
      apply Hin. right. exact H.
  - apply sorted_strict; [exact Hnd'|].
    apply sorted_by_sorted. apply str_ltb_asym.
  - unfold expiration_lines. fold months.
    rewrite (month_lines_spec _ recent).
    + rewrite <- (Permutation_length Hperm), length_map. reflexivity.
    + intros k Hk.
      assert (Hk0 : In k months)
        by (rewrite <- (firstn_skipn 6 months); apply in_or_app; left; exact Hk).
      clear Hk. rename Hk0 into Hk.
      assert (Hk' : In k (map fst (exp_by_month expirations)))
        by (eapply Permutation_in; [apply Permutation_sym|]; eassumption).
      exact (Hget k Hk').
Qed.

Lemma month_key_day_of (exp : str) :
  month_key exp = firstn 6 exp /\ day_of exp = skipn 6 exp.
Proof.
  unfold month_key, day_of, slice, clamp, len. cbv zeta.
  change (6 <? 0) with false. cbv iota.
  destruct (Nat.le_gt_cases (List.length exp) 6) as [Hle|Hgt].
  - rewrite Z.min_r by lia. rewrite Z.sub_0_r, Z.sub_diag, Nat2Z.id.
    change (skipn (Z.to_nat 0) exp) with exp. change (Z.to_nat 0) with 0%nat.
    split.
    + rewrite firstn_all. symmetry. apply firstn_all2. lia.
    + rewrite (skipn_all2 exp (n := 6)) by lia. reflexivity.
  - rewrite Z.min_l by lia. rewrite Z.sub_0_r.
    change (Z.to_nat 6) with 6%nat. change (skipn (Z.to_nat 0) exp) with exp.
    split; [reflexivity|].
    apply firstn_all2. rewrite length_skipn. lia.
Qed.

Lemma month_line_text (year month : str) (days : list str) :
  List.length year = 4%nat -> List.length month = 2%nat ->
  month_line (year ++ month) days
  = py "<code>" ++ year ++ py "-" ++ month ++ py ": "
      ++ join (py ", ") days ++ py "</code>" ++ ["010"%char].
Proof.
  intros Hy Hm. unfold month_line.
  assert (H4 : slice None (Some 4) (year ++ month) = year).
  { unfold slice, clamp, len. cbv zeta. rewrite length_app, Hy, Hm.
    change (firstn 4 (year ++ month) = year).
    rewrite firstn_app, Hy. rewrite (firstn_all2 year) by lia.
    change (4 - 4)%nat with 0%nat. simpl. apply app_nil_r. }
  assert (H6 : slice (Some 4) (Some 6) (year ++ month) = month).
  { unfold slice, clamp, len. cbv zeta. rewrite length_app, Hy, Hm.
    change (firstn 2 (skipn 4 (year ++ month)) = month).
    rewrite skipn_app, Hy. rewrite (skipn_all2 year) by lia.
    change (4 - 4)%nat with 0%nat. change (skipn 0 month) with month.
    rewrite app_nil_l. apply firstn_all2. lia. }
  rewrite H4, H6. reflexivity.
Qed.

(** X16. /chain groups the first 24 expirations by their month, the
    first six characters of an expiration; its day is what follows them.
    The months are listed without repetition in ascending order, at most
    six of them, the smallest ones; the line of a month reads
    <code>YYYY-MM: days</code> with the days of its expirations in the
    order received, at most eight of them, separated by a comma and a
    space; a last line counts the months left out, when there are more
    than six.  No lookup fails. *)
Theorem chain_expirations_by_month (expirations : list str) :
  let recent := firstn 24 expirations in
  let months := sorted_by str_ltb (map fst (exp_by_month expirations)) in
  NoDup months /\
  (forall k, In k months <-> exists exp, In exp recent /\ k = firstn 6 exp) /\
  StronglySorted (fun a b => str_ltb a b = true) months /\
  expiration_lines expirations
  = Some (map (fun k =>
                 month_line k
                   (firstn 8 (map (skipn 6)
                                  (filter (fun exp => str_eqb (firstn 6 exp) k)
                                          recent))))
              (firstn 6 months)
          ++ if (6 <? List.length months)%nat
             then [more_months (Z.of_nat (List.length months) - 6)]
             else []) /\
  (forall year month days,
     List.length year = 4%nat -> List.length month = 2%nat ->
     month_line (year ++ month) days
     = py "<code>" ++ year ++ py "-" ++ month ++ py ": "
         ++ join (py ", ") days ++ py "</code>" ++ ["010"%char]) /\
  expiration_lines [py "20260220"; py "20260116"; py "20260123"; py "20260320"]
  = Some [py "<code>2026-01: 16, 23</code>" ++ ["010"%char];
          py "<code>2026-02: 20</code>" ++ ["010"%char];
          py "<code>2026-03: 20</code>" ++ ["010"%char]] /\
  expiration_lines [py "20260717"; py "20260619"; py "20260515"; py "20260417";
                    py "20260320"; py "20260220"; py "20260116"; py "20260821"]
  = Some [py "<code>2026-01: 16</code>" ++ ["010"%char];
          py "<code>2026-02: 20</code>" ++ ["010"%char];
          py "<code>2026-03: 20</code>" ++ ["010"%char];
          py "<code>2026-04: 17</code>" ++ ["010"%char];
          py "<code>2026-05: 15</code>" ++ ["010"%char];
          py "<code>2026-06: 19</code>" ++ ["010"%char];
          py "<code>... +2 more months</code>" ++ ["010"%char]].
Proof.
  intros recent months.
  destruct (expiration_lines_grouped expirations) as (H1 & H2 & H3 & H4).
  fold recent months in H1, H2, H3, H4.
  assert (Hkey : forall exp, month_key exp = firstn 6 exp)
    by (intros exp; apply month_key_day_of).
  assert (Hday : forall exp, day_of exp = skipn 6 exp)
    by (intros exp; apply month_key_day_of).
  split; [exact H1|]. split; [|split; [exact H3|split; [|split]]].
  - intros k. rewrite H2, in_map_iff. split.
    + intros (exp & Hk & Hin). exists exp. rewrite <- Hkey. auto.
    + intros (exp & Hin & Hk). exists exp. rewrite Hkey. auto.
  - rewrite H4. f_equal. f_equal. apply map_ext. intros k. f_equal. f_equal.
    unfold days_in. rewrite (map_ext _ _ Hday). f_equal.
    apply filter_ext. intros exp. rewrite Hkey. reflexivity.
  - apply month_line_text.
  - split; vm_compute; reflexivity.
Qed.
